(** * Movie recommendation system: rating register and recommender

    Shallow embedding of [Movie Recommendation System.py].

    - Python integers are [Z]; the rating enumeration is an inductive type
      with its [value] projection.
    - The dictionaries [_user_movies] and [_movie_ratings] are finite maps
      keyed by the integer ids; only lookup, insertion and the multiset of
      values are ever observed, so their iteration order plays no role.
    - Python objects of class [Movie] define neither [__eq__] nor [__hash__]:
      sets and the [in] operator compare them by object identity.  A movie
      therefore carries, next to its two fields, the identity [obj] of the
      object; equality of the record is object identity.
    - Operations that can raise ([d[k]] on a missing key, division by an
      empty length) live in an error monad.
    - Python's true division of two integers returns the binary64 float
      nearest to the exact quotient, ties to even.  A finite float is
      modelled by the rational number it denotes, in lowest terms, so that
      comparisons of floats, and of a float with an integer, are
      comparisons of rationals. *)

From Stdlib Require Import ZArith QArith Qabs Qpower Qreduction List Lia Lqa.
From Stdlib Require Import SpecFloat.
From stdpp Require Import base gmap strings list fin_maps fin_sets.

Close Scope Q_scope.
Open Scope Z_scope.

(** ** Exceptions and the error monad *)

Inductive exn : Type :=
  | KeyError (k : Z)
  | ZeroDivisionError
  | OverflowError.

Inductive result (A : Type) : Type :=
  | Ok (a : A)
  | Raise (e : exn).
Arguments Ok {A} a.
Arguments Raise {A} e.

Definition rbind {A B} (c : result A) (k : A -> result B) : result B :=
  match c with
  | Ok a => k a
  | Raise e => Raise e
  end.

Notation "'let*' x ':=' c 'in' k" := (rbind c (fun x => k))
  (at level 10, x name, c at level 100, k at level 200).

(** [d[k]] on a dictionary keyed by integers. *)
Definition getitem {V} (d : gmap Z V) (k : Z) : result V :=
  match d !! k with
  | Some v => Ok v
  | None => Raise (KeyError k)
  end.

(** [sum(f(x) for x in xs)]: left-to-right accumulation from [0]; the first
    exception raised by the generator aborts the sum. *)
Fixpoint sum_from {A} (f : A -> result Z) (acc : Z) (xs : list A) : result Z :=
  match xs with
  | [] => Ok acc
  | x :: rest => let* v := f x in sum_from f (acc + v) rest
  end.

Definition py_sum {A} (f : A -> result Z) (xs : list A) : result Z :=
  sum_from f 0 xs.

(** ** True division of integers

    [a / b] on Python integers is the binary64 float nearest to the exact
    quotient, ties to even; it raises [ZeroDivisionError] when [b] is 0 and
    [OverflowError] when the rounded quotient is beyond the binary64
    range. *)

(** The integer [L] with [2^L <= a/b < 2^(L+1)], for positive [a] and [b]. *)
Definition floor_log2_quot (a b : Z) : Z :=
  let k := Z.log2 a - Z.log2 b in
  if decide (b * 2 ^ Z.max 0 k <= a * 2 ^ Z.max 0 (- k)) then k else k - 1.

(** The exponent of the last place of the float: 53 significant bits, and
    never below the exponent of the subnormal numbers. *)
Definition b64_exponent (a b : Z) : Z :=
  Z.max (floor_log2_quot a b - 52) (-1074).

(** The integer nearest to [num / den], the even one of the two when
    [num / den] is half-way between them. *)
Definition round_half_even (num den : Z) : Z :=
  match 2 * (num mod den) ?= den with
  | Lt => num / den
  | Eq => if Z.even (num / den) then num / den else num / den + 1
  | Gt => num / den + 1
  end.

(** The significand: [a / b] divided by [2^e] and rounded. *)
Definition b64_mantissa (a b : Z) : Z :=
  round_half_even (a * 2 ^ Z.max 0 (- b64_exponent a b))
                  (b * 2 ^ Z.max 0 (b64_exponent a b)).

(** The rational [m * 2^e], in lowest terms. *)
Definition scale2 (m e : Z) : Q :=
  Qred (inject_Z (m * 2 ^ Z.max 0 e) / inject_Z (2 ^ Z.max 0 (- e))).

(** The binary64 float nearest to [a / b], for positive [a] and [b]; the
    binary64 range is not checked here. *)
Definition b64_round_div (a b : Z) : Q :=
  scale2 (b64_mantissa a b) (b64_exponent a b).

Definition py_true_div (a b : Z) : result Q :=
  if decide (b = 0) then Raise ZeroDivisionError
  else if decide (a = 0) then Ok (inject_Z 0)
  else
    let v := b64_round_div (Z.abs a) (Z.abs b) in
    if Qle_bool (inject_Z (2 ^ 1024)) v then Raise OverflowError
    else Ok (if decide (Z.sgn a = Z.sgn b) then v else Qopp v).

(** The same quotient through the Standard Library's specification of
    IEEE-754 arithmetic, to compare with: both integers are converted to
    binary64 (exactly, below 2^53) and divided by [SFdiv]. *)
Definition sf_of_pos (p : positive) : spec_float :=
  binary_normalize 53 1024 (Z.pos p) 0 false.

Definition sf_value (f : spec_float) : option Q :=
  match f with
  | S754_zero _ => Some (inject_Z 0)
  | S754_finite s m e => Some (scale2 (if s then Z.neg m else Z.pos m) e)
  | S754_infinity _ | S754_nan => None
  end.

Definition sf_div (a b : positive) : option Q :=
  sf_value (SFdiv 53 1024 (sf_of_pos a) (sf_of_pos b)).

(** ** Movie, User, MovieRating *)

Module Movie.
Record t : Type := mk { obj : nat; _id : Z; _title : string }.

Definition get_id (m : t) : Z := _id m.
Definition get_title (m : t) : string := _title m.

#[global] Instance eq_dec : EqDecision t.
Proof. solve_decision. Defined.

#[global] Instance countable : Countable t :=
  inj_countable' (fun m => (obj m, _id m, _title m))
                 (fun p => mk p.1.1 p.1.2 p.2)
                 (fun m => match m with mk _ _ _ => eq_refl end).
End Movie.

Module User.
Record t : Type := mk { _id : Z; _name : string }.

Definition get_id (u : t) : Z := _id u.
End User.

Inductive MovieRating : Type :=
  | NOT_RATED | ONE | TWO | THREE | FOUR | FIVE.

Definition value (r : MovieRating) : Z :=
  match r with
  | NOT_RATED => 0
  | ONE => 1
  | TWO => 2
  | THREE => 3
  | FOUR => 4
  | FIVE => 5
  end.

(** ** RatingRegister *)

Module RatingRegister.
Record t : Type := mk {
  _user_movies : gmap Z (list Movie.t);
  _movie_ratings : gmap Z (gmap Z MovieRating);
  _movies : list Movie.t;
  _users : list User.t
}.

(** [__init__] *)
Definition init : t := mk ∅ ∅ [] [].

(** [ratings.values()] of one movie's dictionary. *)
Definition values (d : gmap Z MovieRating) : list MovieRating :=
  (map_to_list d).*2.

Definition add_rating (self : t) (user : User.t) (movie : Movie.t)
    (rating : MovieRating) : t :=
  let mid := Movie.get_id movie in
  let uid := User.get_id user in
  (* if movie.get_id() not in self._movie_ratings *)
  let '(movie_ratings1, movies1) :=
    match _movie_ratings self !! mid with
    | None => (<[mid := ∅]> (_movie_ratings self), _movies self ++ [movie])
    | Some _ => (_movie_ratings self, _movies self)
    end in
  (* if user.get_id() not in self._user_movies *)
  let '(user_movies1, users1) :=
    match _user_movies self !! uid with
    | None => (<[uid := []]> (_user_movies self), _users self ++ [user])
    | Some _ => (_user_movies self, _users self)
    end in
  (* self._user_movies[uid].append(movie); the key is present after the
     guard above, and likewise for the subscript of the last line *)
  let user_movies2 :=
    <[uid := default [] (user_movies1 !! uid) ++ [movie]]> user_movies1 in
  (* self._movie_ratings[mid][uid] = rating *)
  let movie_ratings2 :=
    <[mid := <[uid := rating]> (default ∅ (movie_ratings1 !! mid))]>
      movie_ratings1 in
  mk user_movies2 movie_ratings2 movies1 users1.

Definition get_average_rating (self : t) (movie : Movie.t) : result Q :=
  match _movie_ratings self !! Movie.get_id movie with
  | None => Ok (inject_Z (value NOT_RATED))
  | Some d =>
      let ratings := values d in
      let* s := py_sum (fun r => Ok (value r)) ratings in
      py_true_div s (Z.of_nat (length ratings))
  end.

Definition get_users (self : t) : list User.t := _users self.

Definition get_movies (self : t) : list Movie.t := _movies self.

Definition get_user_movies (self : t) (user : User.t) : list Movie.t :=
  default [] (_user_movies self !! User.get_id user).

Definition get_movie_ratings (self : t) (movie : Movie.t)
    : gmap Z MovieRating :=
  default ∅ (_movie_ratings self !! Movie.get_id movie).
End RatingRegister.

(** ** Values returned by the recommender

    [recommend_movie] is annotated [Optional[str]]; the values it can
    actually produce are [None], a string, or a [Movie] object. *)

Inductive pyval : Type :=
  | PyNone
  | PyStr (s : string)
  | PyMovie (m : Movie.t).

(** Dissimilarity scores: an integer, or [float("inf")]. *)
Inductive score : Type :=
  | Fin (z : Z)
  | Inf.

(** [a < b] on scores. *)
Definition score_ltb (a b : score) : bool :=
  match a, b with
  | Fin x, Fin y => bool_decide (x < y)
  | Fin _, Inf => true
  | Inf, _ => false
  end.

(** [x or float("inf")] for an integer [x]: zero is falsy. *)
Definition or_inf (x : Z) : score :=
  if decide (x = 0) then Inf else Fin x.

(** [a > b] on rationals. *)
Definition Qgtb (a b : Q) : bool := negb (Qle_bool a b).

(** [max(xs, key=key, default=None)]: the key of every item is computed
    once, in order; the running maximum is replaced only by an item whose
    key is strictly greater. *)
Fixpoint max_from {A} (key : A -> result Q) (maxitem : A) (maxval : Q)
    (xs : list A) : result A :=
  match xs with
  | [] => Ok maxitem
  | x :: rest =>
      let* v := key x in
      if Qgtb v maxval then max_from key x v rest
      else max_from key maxitem maxval rest
  end.

Definition py_max {A} (key : A -> result Q) (xs : list A)
    : result (option A) :=
  match xs with
  | [] => Ok None
  | x :: rest =>
      let* v := key x in
      let* m := max_from key x v rest in
      Ok (Some m)
  end.

(** ** MovieRecommendation *)

Module MovieRecommendation.
Import RatingRegister.

Section Recommender.
(** [self._ratings] *)
Variable ratings : RatingRegister.t.

Definition _recommend_for_new_user : result pyval :=
  let* best := py_max (get_average_rating ratings) (get_movies ratings) in
  Ok match best with
     | Some m => PyMovie m
     | None => PyNone
     end.

(** The generator is summed over the elements of the set in some fixed
order; integer addition makes the total independent of it. *)
Definition _calculate_similarity (user1 user2 : User.t) : result score :=
  let common_movies : gset Movie.t :=
    list_to_set (get_user_movies ratings user1)
    ∩ list_to_set (get_user_movies ratings user2) in
  let* s :=
    py_sum (fun movie =>
              let* r1 := getitem (get_movie_ratings ratings movie)
                                 (User.get_id user1) in
              let* r2 := getitem (get_movie_ratings ratings movie)
                                 (User.get_id user2) in
              Ok (Z.abs (value r1 - value r2)))
           (elements common_movies) in
  Ok (or_inf s).

(** The loop of [_find_unwatched_movie], with its two locals. *)
Fixpoint _find_unwatched_movie_loop (user_movies : gset Movie.t)
    (reviewer : User.t) (best_movie : option Movie.t) (best_rating : Z)
    (reviewer_movies : list Movie.t) : result (option Movie.t) :=
  match reviewer_movies with
  | [] => Ok best_movie
  | movie :: rest =>
      if bool_decide (movie ∉ user_movies)
         && bool_decide
              (value (default NOT_RATED
                        (get_movie_ratings ratings movie
                           !! User.get_id reviewer)) > best_rating)
      then
        let* r := getitem (get_movie_ratings ratings movie)
                          (User.get_id reviewer) in
        _find_unwatched_movie_loop user_movies reviewer
          (Some movie) (value r) rest
      else
        _find_unwatched_movie_loop user_movies reviewer
          best_movie best_rating rest
  end.

Definition _find_unwatched_movie (user reviewer : User.t)
    : result (option Movie.t) :=
  let user_movies : gset Movie.t :=
    list_to_set (get_user_movies ratings user) in
  let reviewer_movies := get_user_movies ratings reviewer in
  _find_unwatched_movie_loop user_movies reviewer None 0 reviewer_movies.

(** The loop of [_recommend_for_existing_user], with its two locals. *)
Fixpoint _recommend_for_existing_user_loop (user : User.t)
    (best_movie : option Movie.t) (lowest_score : score)
    (reviewers : list User.t) : result (option Movie.t) :=
  match reviewers with
  | [] => Ok best_movie
  | reviewer :: rest =>
      if decide (User.get_id reviewer = User.get_id user) then
        _recommend_for_existing_user_loop user best_movie lowest_score rest
      else
        let* sc := _calculate_similarity user reviewer in
        if score_ltb sc lowest_score then
          let* bm := _find_unwatched_movie user reviewer in
          _recommend_for_existing_user_loop user bm sc rest
        else
          _recommend_for_existing_user_loop user best_movie lowest_score
            rest
  end.

Definition _recommend_for_existing_user (user : User.t) : result pyval :=
  let* best_movie :=
    _recommend_for_existing_user_loop user None Inf (get_users ratings) in
  Ok match best_movie with
     | Some m => PyStr (Movie.get_title m)
     | None => PyNone
     end.

Definition recommend_movie (user : User.t) : result pyval :=
  match get_user_movies ratings user with
  | [] => _recommend_for_new_user
  | _ :: _ => _recommend_for_existing_user user
  end.
End Recommender.
End MovieRecommendation.

(** ** Histories of [add_rating] calls *)

Record call : Type := Call {
  c_user : User.t;
  c_movie : Movie.t;
  c_rating : MovieRating
}.

Definition apply_call (st : RatingRegister.t) (c : call) : RatingRegister.t :=
  RatingRegister.add_rating st (c_user c) (c_movie c) (c_rating c).

(** The register obtained from a fresh one by the given calls, in order. *)
Definition run (calls : list call) : RatingRegister.t :=
  fold_left apply_call calls RatingRegister.init.

(** ** The demonstration of the [__main__] block *)

Module Demo.
Definition user1 := User.mk 1 "Alice".
Definition user2 := User.mk 2 "Bob".
Definition user3 := User.mk 3 "Charlie".
Definition movie1 := Movie.mk 0 1 "Inception".
Definition movie2 := Movie.mk 1 2 "Titanic".
Definition movie3 := Movie.mk 2 3 "The Matrix".

Definition calls : list call :=
  [Call user1 movie1 FIVE; Call user1 movie2 TWO;
   Call user2 movie2 THREE; Call user2 movie3 FOUR].

Definition ratings : RatingRegister.t := run calls.
End Demo.

Import RatingRegister MovieRecommendation.


(** Two users who gave the same movie the same rating; the second one has
    also rated a movie the first one has not seen. *)
Module Agree.
Definition user1 := User.mk 1 "Alice".
Definition user2 := User.mk 2 "Bob".
Definition movie2 := Movie.mk 0 2 "Titanic".
Definition movie3 := Movie.mk 1 3 "The Matrix".

Definition calls : list call :=
  [Call user1 movie2 THREE; Call user2 movie2 THREE; Call user2 movie3 FOUR].

Definition ratings : RatingRegister.t := run calls.
End Agree.

(** Two users with no movie in common. *)
Module Apart.
Definition user1 := User.mk 1 "Alice".
Definition user2 := User.mk 2 "Bob".
Definition movie1 := Movie.mk 0 1 "Inception".
Definition movie3 := Movie.mk 1 3 "The Matrix".

Definition calls : list call :=
  [Call user1 movie1 FIVE; Call user2 movie3 FOUR].

Definition ratings : RatingRegister.t := run calls.
End Apart.

(** Three users rate one movie ONE, NOT_RATED and NOT_RATED: the mean of the
    values is 1/3, which is no binary64 number. *)
Module Thirds.
Definition user1 := User.mk 1 "Alice".
Definition user2 := User.mk 2 "Bob".
Definition user3 := User.mk 3 "Charlie".
Definition movie1 := Movie.mk 0 1 "Inception".

Definition calls : list call :=
  [Call user1 movie1 ONE; Call user2 movie1 NOT_RATED;
   Call user3 movie1 NOT_RATED].

Definition ratings : RatingRegister.t := run calls.
End Thirds.

(** Two movies with tens of millions of ratings each: [n1] viewers rate the
    first movie, then [n2] viewers rate the second one; on each movie the
    viewer of id 0 gives FOUR and every other one FIVE, so that the mean of
    a movie rated by [n] viewers is [(5 n - 1) / n].  With [n1] = 2^26 and
    [n2] = 2^26 + 1 the two means differ by less than the distance between
    neighbouring binary64 numbers. *)
Module Tie.
Definition movie1 := Movie.mk 0 1 "Inception".
Definition movie2 := Movie.mk 1 2 "Titanic".
Definition newcomer := User.mk (-1) "Charlie".

Definition viewer (i : nat) : User.t := User.mk (Z.of_nat i) "viewer".

Definition vote (i : nat) : MovieRating :=
  if decide (i = 0%nat) then FOUR else FIVE.

Definition block (movie : Movie.t) (n : nat) : list call :=
  (fun i => Call (viewer i) movie (vote i)) <$> seq 0 n.

Definition history (n1 n2 : nat) : list call :=
  block movie1 n1 ++ block movie2 n2.

Definition calls : list call :=
  history (Z.to_nat 67108864) (Z.to_nat 67108865).
End Tie.

(** ** Specification-level notions *)

(** Sum of a list of integers. *)
Definition Zsum (l : list Z) : Z := foldr Z.add 0 l.

(** The exact mean of the values stored in one movie's dictionary. *)
Definition mean_of (d : gmap Z MovieRating) : Q :=
  (inject_Z (Zsum (value <$> values d)) / inject_Z (Z.of_nat (size d)))%Q.

(** The rating given by the last call of [calls] made for the pair of a user
    id and a movie id, if there is one. *)
Fixpoint last_rating (calls : list call) (uid mid : Z) : option MovieRating :=
  match calls with
  | [] => None
  | c :: rest =>
      match last_rating rest uid mid with
      | Some r => Some r
      | None =>
          if decide (User.get_id (c_user c) = uid
                     ∧ Movie.get_id (c_movie c) = mid)
          then Some (c_rating c) else None
      end
  end.

(** No call of the history is about the movie id [mid]. *)
Definition movie_never_passed (calls : list call) (mid : Z) : Prop :=
  Forall (fun c => Movie.get_id (c_movie c) ≠ mid) calls.

(** No call of the history is made by the user id [uid]. *)
Definition user_never_passed (calls : list call) (uid : Z) : Prop :=
  Forall (fun c => User.get_id (c_user c) ≠ uid) calls.

(** Bidirectional consistency of the two indexes, on pairs of ids. *)
Definition consistent (st : RatingRegister.t) : Prop :=
  ∀ uid mid : Z,
    (∃ d, RatingRegister._movie_ratings st !! mid = Some d ∧ is_Some (d !! uid))
    ↔ (∃ ms, RatingRegister._user_movies st !! uid = Some ms
             ∧ ∃ m, m ∈ ms ∧ Movie.get_id m = mid).

(** Every dictionary stored in [_movie_ratings] has at least one entry. *)
Definition ratings_nonempty (st : RatingRegister.t) : Prop :=
  ∀ (mid : Z) (d : gmap Z MovieRating),
    RatingRegister._movie_ratings st !! mid = Some d → d ≠ ∅.

(** A stored list of rated movies is never empty. *)
Definition user_movies_nonempty (st : RatingRegister.t) : Prop :=
  ∀ (uid : Z) (ms : list Movie.t),
    RatingRegister._user_movies st !! uid = Some ms → ms ≠ [].

(** The average of a movie as [get_average_rating] computes it: the sum of
    the stored values divided by their number in binary64, [0] for a movie
    id the register does not know. *)
Definition average (st : RatingRegister.t) (m : Movie.t) : Q :=
  match RatingRegister._movie_ratings st !! Movie.get_id m with
  | Some d =>
      b64_round_div (Zsum (value <$> RatingRegister.values d))
                    (Z.of_nat (size d))
  | None => inject_Z 0
  end.

(** [v] is the binary64 float nearest to the rational [x >= 0], ties to
    even, the binary64 range left aside: [v] is [m * 2^e] for a significand
    [m] of at most 53 bits (or [2^53], the first number of the next binade)
    and the exponent [e] of the last place at [x], which is at least
    [-1074]; [v] is within half a unit in the last place of [x]; and [m] is
    even when [x] is exactly half-way between two such numbers. *)
Definition b64_nearest (x v : Q) : Prop :=
  ∃ m e : Z,
    (v == inject_Z m * 2 ^ e)%Q
    ∧ 0 <= m <= 2 ^ 53
    ∧ -1074 <= e
    ∧ ((2 ^ (e + 52) <= x ∧ x < 2 ^ (e + 53))%Q
       ∨ (e = -1074 ∧ (x < 2 ^ (e + 52))%Q))
    ∧ (Qabs (v - x) <= 2 ^ e * (1 # 2))%Q
    ∧ ((Qabs (v - x) == 2 ^ e * (1 # 2))%Q → Z.even m = true).

(** The value a reviewer gave to a movie, [0] when there is none:
    [get_movie_ratings(movie).get(reviewer.get_id(), NOT_RATED).value]. *)
Definition reviewer_value (st : RatingRegister.t) (reviewer : User.t)
    (m : Movie.t) : Z :=
  value (default NOT_RATED
           (RatingRegister.get_movie_ratings st m !! User.get_id reviewer)).

(** The movie object is not among those the user rated. *)
Definition unwatched (st : RatingRegister.t) (user : User.t) (m : Movie.t)
    : Prop :=
  m ∉ RatingRegister.get_user_movies st user.

(** [res] is the first element of [l] that maximises [f] among the elements
    satisfying [P], provided that maximum is above [0]; it is [None] when
    no such element has a value above [0]. *)
Definition first_best_above_zero {A} (P : A -> Prop) (f : A -> Z)
    (l : list A) (res : option A) : Prop :=
  match res with
  | None => ∀ x, x ∈ l → P x → f x <= 0
  | Some m =>
      ∃ pre post, l = pre ++ m :: post ∧ P m ∧ 0 < f m
        ∧ (∀ x, x ∈ pre → P x → f x < f m)
        ∧ (∀ x, x ∈ post → P x → f x <= f m)
  end.

(** [m] is the first element of [l] whose key is maximal. *)
Definition first_max {A} (k : A -> Q) (l : list A) (m : A) : Prop :=
  ∃ pre post, l = pre ++ m :: post
    ∧ (∀ x, x ∈ pre → (k x < k m)%Q)
    ∧ (∀ x, x ∈ post → (k x <= k m)%Q).

(** The integer summed by [_calculate_similarity] for one common movie. *)
Definition rating_gap (st : RatingRegister.t) (u1 u2 : User.t) (m : Movie.t)
    : Z :=
  Z.abs (reviewer_value st u1 m - reviewer_value st u2 m).

(** The set of movie objects both users rated. *)
Definition common_movies (st : RatingRegister.t) (u1 u2 : User.t)
    : gset Movie.t :=
  list_to_set (RatingRegister.get_user_movies st u1)
  ∩ list_to_set (RatingRegister.get_user_movies st u2).

(** The calls of a history made by a user id, and those made for a movie
    id, in call order. *)
Definition calls_of_user (calls : list call) (uid : Z) : list call :=
  filter (fun c => User.get_id (c_user c) = uid) calls.

Definition calls_of_movie (calls : list call) (mid : Z) : list call :=
  filter (fun c => Movie.get_id (c_movie c) = mid) calls.

(** The numerator of a movie's average: the sum of the stored values. *)
Definition sum_values (st : RatingRegister.t) (m : Movie.t) : Z :=
  Zsum (value <$> RatingRegister.values (RatingRegister.get_movie_ratings st m)).

(** The known users the loop of [_recommend_for_existing_user] does not
    skip. *)
Definition other_users (st : RatingRegister.t) (user : User.t)
    : list User.t :=
  filter (fun r => User.get_id r ≠ User.get_id user)
         (RatingRegister.get_users st).

(** The two locals of the reviewer loop after the reviewers [l] (the user
    left out): with [s] the score of each reviewer and [g] the best
    unwatched movie of each, [lowest] is the least score of [l], reached
    first by the reviewer whose movie [best] is; both locals keep their
    initial values while every score is infinite. *)
Definition lowest_so_far (s : User.t -> score) (g : User.t -> option Movie.t)
    (l : list User.t) (best : option Movie.t) (lowest : score) : Prop :=
  match lowest with
  | Inf => best = None ∧ ∀ x, x ∈ l → s x = Inf
  | Fin z =>
      ∃ pre r post, l = pre ++ r :: post ∧ s r = Fin z ∧ best = g r
        ∧ (∀ x, x ∈ pre → score_ltb (Fin z) (s x) = true)
        ∧ (∀ x, x ∈ post → score_ltb (s x) (Fin z) = false)
  end.

(** A register in which a user's list holds a movie the user has no entry
    for; no history of [add_rating] calls produces it. *)
Definition broken_register : RatingRegister.t :=
  RatingRegister.mk
    {[ 1 := [Movie.mk 0 1 "Inception"]; 2 := [Movie.mk 0 1 "Inception"] ]}
    ∅ [Movie.mk 0 1 "Inception"] [User.mk 1 "Alice"; User.mk 2 "Bob"].

(** The keys of [_movie_ratings] are the ids of the catalog, which holds no
    id twice; likewise for [_user_movies] and the user list. *)
Definition catalog_ok (st : RatingRegister.t) : Prop :=
  NoDup (Movie.get_id <$> get_movies st)
  ∧ ∀ mid, is_Some (_movie_ratings st !! mid)
           ↔ mid ∈ Movie.get_id <$> get_movies st.

Definition users_ok (st : RatingRegister.t) : Prop :=
  NoDup (User.get_id <$> get_users st)
  ∧ ∀ uid, is_Some (_user_movies st !! uid)
           ↔ uid ∈ User.get_id <$> get_users st.

(** * Bank system

    Shallow embedding of [Bank System.py].

    - Ids and amounts are Python integers, [Z].
    - The methods mutate objects that several owners share: every branch of
      a bank holds references to the bank's one account manager and one
      transaction manager.  They are written in a state-and-exception monad
      over what a method can reach; a raised exception keeps the state
      reached so far.
    - [random.choice] draws an index below the length of the list; the draw
      is an argument [rnd] of the operation, taken modulo the length.
    - An account object is referred to by its position in [_accounts]. *)

Inductive bank_exn : Type :=
  | ValueError (msg : string)
  | IndexError.

Inductive outcome (A : Type) : Type :=
  | Return (a : A)
  | Throw (e : bank_exn).
Arguments Return {A} a.
Arguments Throw {A} e.

(** Computations over a mutable state [S]. *)
Definition stateful (S A : Type) : Type := S -> outcome A * S.

Definition sret {S A} (a : A) : stateful S A := fun σ => (Return a, σ).

Definition sthrow {S A} (e : bank_exn) : stateful S A :=
  fun σ => (Throw e, σ).

Definition sbind {S A B} (c : stateful S A) (k : A -> stateful S B)
    : stateful S B :=
  fun σ =>
    match c σ with
    | (Return a, σ') => k a σ'
    | (Throw e, σ') => (Throw e, σ')
    end.

Notation "'let!' x ':=' c 'in' k" := (sbind c (fun x => k))
  (at level 10, x name, c at level 100, k at level 200).

(** The position [l[i]] denotes in a list of length [len]: negative indexes
    count from the end; [None] when the index is out of range. *)
Definition py_index (len : nat) (i : Z) : option nat :=
  if decide (0 <= i < Z.of_nat len) then Some (Z.to_nat i)
  else if decide (- Z.of_nat len <= i < 0)
       then Some (Z.to_nat (Z.of_nat len + i))
       else None.

(** ** Transactions *)

Inductive Transaction : Type :=
  | Deposit (customer_id teller_id amount : Z)
  | Withdrawal (customer_id teller_id amount : Z)
  | OpenAccount (customer_id teller_id : Z).

Definition get_customer_id (t : Transaction) : Z :=
  match t with
  | Deposit c _ _ | Withdrawal c _ _ | OpenAccount c _ => c
  end.

Definition get_teller_id (t : Transaction) : Z :=
  match t with
  | Deposit _ t _ | Withdrawal _ t _ | OpenAccount _ t => t
  end.

(** ** BankAccount *)

Module BankAccount.
Record t : Type := mk { _customer_id : Z; _name : string; _balance : Z }.

(** [__init__(customer_id, name, balance=0)] with the default balance. *)
Definition init (customer_id : Z) (name : string) : t :=
  mk customer_id name 0.

Definition get_balance (self : t) : Z := _balance self.

Definition deposit (amount : Z) : stateful t unit :=
  fun self =>
    (Return tt,
     mk (_customer_id self) (_name self) (_balance self + amount)).

Definition withdraw (amount : Z) : stateful t unit :=
  fun self =>
    if decide (amount > _balance self)
    then (Throw (ValueError "Insufficient funds"), self)
    else (Return tt,
          mk (_customer_id self) (_name self) (_balance self - amount)).
End BankAccount.

(** ** AccountManager *)

Module AccountManager.
Record t : Type := mk { _accounts : list BankAccount.t }.

Definition init : t := mk [].

Definition open_account (customer_name : string) (teller_id : Z)
    : stateful t Transaction :=
  fun self =>
    let customer_id := Z.of_nat (length (_accounts self)) in
    let account := BankAccount.init customer_id customer_name in
    (Return (OpenAccount customer_id teller_id),
     mk (_accounts self ++ [account])).

(** [self._accounts[customer_id]]: the position of the account object. *)
Definition get_account (customer_id : Z) : stateful t nat :=
  fun self =>
    match py_index (length (_accounts self)) customer_id with
    | Some n => (Return n, self)
    | None => (Throw IndexError, self)
    end.

(** A method call on the account object at position [n]; the object is
    changed in place. *)
Definition on_account {A} (n : nat) (m : stateful BankAccount.t A)
    : stateful t A :=
  fun self =>
    match _accounts self !! n with
    | Some account =>
        let '(o, account') := m account in
        (o, mk (<[n := account']> (_accounts self)))
    | None => (Throw IndexError, self)
    end.

Definition deposit (customer_id amount : Z) : stateful t unit :=
  let! n := get_account customer_id in
  on_account n (BankAccount.deposit amount).

Definition withdraw (customer_id amount : Z) : stateful t unit :=
  let! n := get_account customer_id in
  on_account n (BankAccount.withdraw amount).
End AccountManager.

(** ** TransactionManager *)

Module TransactionManager.
Record t : Type := mk { _transactions : list Transaction }.

Definition init : t := mk [].

Definition log_transaction (transaction : Transaction) : stateful t unit :=
  fun self => (Return tt, mk (_transactions self ++ [transaction])).
End TransactionManager.

(** ** BankTeller *)

Module BankTeller.
Record t : Type := mk { _id : Z }.

Definition get_id (self : t) : Z := _id self.
End BankTeller.

(** ** BankBranch *)

Module BankBranch.
(** The fields a branch owns. *)
Record t : Type := mk {
  _address : string;
  _cash_on_hand : Z;
  _tellers : list BankTeller.t
}.

(** [__init__]: a branch starts without tellers. *)
Definition init (address : string) (cash_on_hand : Z) : t :=
  mk address cash_on_hand [].

(** What a method of a branch can reach: the branch and the two managers
    it holds references to. *)
Record world : Type := World {
  self : t;
  _account_manager : AccountManager.t;
  _transaction_manager : TransactionManager.t
}.

(** A call on [self._account_manager]. *)
Definition account_manager {A} (m : stateful AccountManager.t A)
    : stateful world A :=
  fun w =>
    let '(o, am) := m (_account_manager w) in
    (o, World (self w) am (_transaction_manager w)).

(** A call on [self._transaction_manager]. *)
Definition transaction_manager {A} (m : stateful TransactionManager.t A)
    : stateful world A :=
  fun w =>
    let '(o, tm) := m (_transaction_manager w) in
    (o, World (self w) (_account_manager w) tm).

Definition add_teller (teller : BankTeller.t) : stateful world unit :=
  fun w =>
    (Return tt,
     World (mk (_address (self w)) (_cash_on_hand (self w))
               (_tellers (self w) ++ [teller]))
           (_account_manager w) (_transaction_manager w)).

(** [random.choice(self._tellers).get_id()]; [random.choice] raises
    [IndexError] on an empty list. *)
Definition _get_available_teller (rnd : nat) : stateful world Z :=
  fun w =>
    match _tellers (self w) !! (rnd mod length (_tellers (self w)))%nat with
    | Some teller => (Return (BankTeller.get_id teller), w)
    | None => (Throw IndexError, w)
    end.

Definition open_account (rnd : nat) (customer_name : string)
    : stateful world Z :=
  let! teller_id := _get_available_teller rnd in
  let! transaction :=
    account_manager (AccountManager.open_account customer_name teller_id) in
  let! _ :=
    transaction_manager (TransactionManager.log_transaction transaction) in
  sret (get_customer_id transaction).

Definition deposit (rnd : nat) (customer_id amount : Z)
    : stateful world unit :=
  let! teller_id := _get_available_teller rnd in
  let! _ := account_manager (AccountManager.deposit customer_id amount) in
  transaction_manager
    (TransactionManager.log_transaction
       (Deposit customer_id teller_id amount)).

Definition withdraw (rnd : nat) (customer_id amount : Z)
    : stateful world unit :=
  fun w =>
    if decide (amount > _cash_on_hand (self w))
    then sthrow (ValueError "Branch does not have enough cash") w
    else
      (let! teller_id := _get_available_teller rnd in
       let! _ :=
         account_manager (AccountManager.withdraw customer_id amount) in
       let! _ :=
         (fun w' =>
            (Return tt,
             World (mk (_address (self w'))
                       (_cash_on_hand (self w') - amount)
                       (_tellers (self w')))
                   (_account_manager w') (_transaction_manager w'))) in
       transaction_manager
         (TransactionManager.log_transaction
            (Withdrawal customer_id teller_id amount))) w.
End BankBranch.

(** ** Bank *)

Module Bank.
Record t : Type := mk {
  _branches : list BankBranch.t;
  _account_manager : AccountManager.t;
  _transaction_manager : TransactionManager.t
}.

Definition init : t := mk [] AccountManager.init TransactionManager.init.

(** [add_branch] returns the new branch object: its position in
    [_branches]. *)
Definition add_branch (address : string) (initial_funds : Z)
    : stateful t nat :=
  fun bank =>
    (Return (length (_branches bank)),
     mk (_branches bank ++ [BankBranch.init address initial_funds])
        (_account_manager bank) (_transaction_manager bank)).

(** A method call on the branch object at position [b], which works on the
    managers of the bank; [None] when the bank has no such branch. *)
Definition on_branch {A} (b : nat) (m : stateful BankBranch.world A)
    (bank : t) : option (outcome A * t) :=
  match _branches bank !! b with
  | Some branch =>
      let '(o, w) :=
        m (BankBranch.World branch (_account_manager bank)
             (_transaction_manager bank)) in
      Some (o, mk (<[b := BankBranch.self w]> (_branches bank))
                  (BankBranch._account_manager w)
                  (BankBranch._transaction_manager w))
  | None => None
  end.
End Bank.

(** ** Histories of operations on a bank *)

Inductive bank_op : Type :=
  | AddBranch (address : string) (initial_funds : Z)
  | AddTeller (b : nat) (teller_id : Z)
  | Open (b : nat) (rnd : nat) (customer_name : string)
  | Dep (b : nat) (rnd : nat) (customer_id amount : Z)
  | Wd (b : nat) (rnd : nat) (customer_id amount : Z).

(** The bank after one operation, whether it returned or raised; an
    operation on a branch the bank does not have changes nothing. *)
Definition bank_step (bank : Bank.t) (o : bank_op) : Bank.t :=
  match o with
  | AddBranch address funds => (Bank.add_branch address funds bank).2
  | AddTeller b teller =>
      from_option snd bank
        (Bank.on_branch b (BankBranch.add_teller (BankTeller.mk teller)) bank)
  | Open b rnd name =>
      from_option snd bank
        (Bank.on_branch b (BankBranch.open_account rnd name) bank)
  | Dep b rnd customer_id amount =>
      from_option snd bank
        (Bank.on_branch b (BankBranch.deposit rnd customer_id amount) bank)
  | Wd b rnd customer_id amount =>
      from_option snd bank
        (Bank.on_branch b (BankBranch.withdraw rnd customer_id amount) bank)
  end.

Definition bank_run (ops : list bank_op) : Bank.t :=
  fold_left bank_step ops Bank.init.

(** The accounts and the log of a bank. *)
Definition accounts_of (bank : Bank.t) : list BankAccount.t :=
  AccountManager._accounts (Bank._account_manager bank).

Definition log_of (bank : Bank.t) : list Transaction :=
  TransactionManager._transactions (Bank._transaction_manager bank).

(** What a logged transaction adds to the balance of the account [i]. *)
Definition ledger_delta (i : Z) (t : Transaction) : Z :=
  match t with
  | Deposit c _ a => if decide (c = i) then a else 0
  | Withdrawal c _ a => if decide (c = i) then - a else 0
  | OpenAccount _ _ => 0
  end.

Definition ledger_balance (log : list Transaction) (i : Z) : Z :=
  Zsum (ledger_delta i <$> log).

(** The customer ids of the accounts a log opens, in log order. *)
Definition opened_ids (log : list Transaction) : list Z :=
  omap (fun t => match t with OpenAccount c _ => Some c | _ => None end) log.

(** The customer id passed to a deposit or a withdrawal is not negative. *)
Definition plain_customer_id (o : bank_op) : Prop :=
  match o with
  | Dep _ _ c _ | Wd _ _ c _ => 0 <= c
  | _ => True
  end.

(** The operations that can change the fields of the branch [b]: adding a
    teller to it and withdrawing at it. *)
Definition touches_branch (o : bank_op) (b : nat) : Prop :=
  match o with
  | AddTeller b' _ | Wd b' _ _ _ => b' = b
  | _ => False
  end.

(** Branches are funded with, and deposits are made of, amounts that are
    not negative. *)
Definition nonneg_op (o : bank_op) : Prop :=
  match o with
  | AddBranch _ funds => 0 <= funds
  | Dep _ _ _ amount => 0 <= amount
  | _ => True
  end.

(** Every logged customer id is a position of the account list, and every
    balance is what the log adds up to. *)
Definition ledger_ok (bank : Bank.t) : Prop :=
  (∀ t, t ∈ log_of bank →
        0 <= get_customer_id t < Z.of_nat (length (accounts_of bank)))
  ∧ ∀ i acc, accounts_of bank !! i = Some acc →
             BankAccount._balance acc
             = ledger_balance (log_of bank) (Z.of_nat i).

(** No branch holds negative cash and no account a negative balance. *)
Definition solvent (bank : Bank.t) : Prop :=
  (∀ b branch, Bank._branches bank !! b = Some branch →
               0 <= BankBranch._cash_on_hand branch)
  ∧ ∀ i acc, accounts_of bank !! i = Some acc →
             0 <= BankAccount._balance acc.

(** The module-level usage of the source, with the draws of
    [random.choice] left open. *)
Definition usage (r1 r2 r3 r4 r5 r6 r7 : nat) : list bank_op :=
  [AddBranch "123 Main St" 1000; AddBranch "456 Elm St" 1000;
   AddTeller 0 1; AddTeller 0 2; AddTeller 1 3; AddTeller 1 4;
   Open 0 r1 "John Doe"; Open 0 r2 "Bob Smith"; Open 1 r3 "Jane Doe";
   Dep 0 r4 0 100; Dep 0 r5 1 200; Dep 1 r6 2 300;
   Wd 0 r7 0 50].

Import RatingRegister MovieRecommendation.

(** ** The effect of [add_rating] on the four fields *)

Section AddRating.
Variables (st : RatingRegister.t) (user : User.t) (movie : Movie.t)
          (rating : MovieRating).

Lemma add_rating_user_movies :
  _user_movies (add_rating st user movie rating)
  = <[User.get_id user := get_user_movies st user ++ [movie]]>
      (_user_movies st).
Proof.
  unfold add_rating, get_user_movies.
  destruct (_movie_ratings st !! Movie.get_id movie);
    destruct (_user_movies st !! User.get_id user) eqn:Hu; simpl.
  all: rewrite ?lookup_insert_eq, ?Hu, ?insert_insert_eq; reflexivity.
Qed.

Lemma add_rating_movie_ratings :
  _movie_ratings (add_rating st user movie rating)
  = <[Movie.get_id movie :=
        <[User.get_id user := rating]> (get_movie_ratings st movie)]>
      (_movie_ratings st).
Proof.
  unfold add_rating, get_movie_ratings.
  destruct (_movie_ratings st !! Movie.get_id movie) eqn:Hm;
    destruct (_user_movies st !! User.get_id user); simpl.
  all: rewrite ?lookup_insert_eq, ?Hm, ?insert_insert_eq; reflexivity.
Qed.

Lemma add_rating_movies :
  _movies (add_rating st user movie rating)
  = match _movie_ratings st !! Movie.get_id movie with
    | None => _movies st ++ [movie]
    | Some _ => _movies st
    end.
Proof.
  unfold add_rating.
  destruct (_movie_ratings st !! Movie.get_id movie);
    destruct (_user_movies st !! User.get_id user); reflexivity.
Qed.

Lemma add_rating_users :
  _users (add_rating st user movie rating)
  = match _user_movies st !! User.get_id user with
    | None => _users st ++ [user]
    | Some _ => _users st
    end.
Proof.
  unfold add_rating.
  destruct (_movie_ratings st !! Movie.get_id movie);
    destruct (_user_movies st !! User.get_id user); reflexivity.
Qed.

Lemma get_user_movies_add_rating (u : User.t) :
  get_user_movies (add_rating st user movie rating) u
  = if decide (User.get_id user = User.get_id u)
    then get_user_movies st user ++ [movie]
    else get_user_movies st u.
Proof.
  unfold get_user_movies at 1. rewrite add_rating_user_movies.
  rewrite lookup_insert. destruct (decide _); reflexivity.
Qed.

Lemma get_movie_ratings_add_rating (m : Movie.t) :
  get_movie_ratings (add_rating st user movie rating) m
  = if decide (Movie.get_id movie = Movie.get_id m)
    then <[User.get_id user := rating]> (get_movie_ratings st movie)
    else get_movie_ratings st m.
Proof.
  unfold get_movie_ratings at 1. rewrite add_rating_movie_ratings.
  rewrite lookup_insert. destruct (decide _); reflexivity.
Qed.

End AddRating.

Lemma run_snoc (calls : list call) (c : call) :
  run (calls ++ [c]) = apply_call (run calls) c.
Proof. unfold run. rewrite fold_left_app. reflexivity. Qed.

(** Induction over histories, last call first. *)
Lemma run_ind (P : RatingRegister.t -> Prop) :
  P init →
  (∀ st u m r, P st → P (add_rating st u m r)) →
  ∀ calls, P (run calls).
Proof.
  intros Hinit Hstep calls.
  induction calls as [|c calls IH] using rev_ind; [exact Hinit|].
  rewrite run_snoc. apply Hstep, IH.
Qed.

(** ** Invariants of the register *)

Lemma ratings_nonempty_init : ratings_nonempty init.
Proof. intros mid d H. simpl in H. rewrite lookup_empty in H. discriminate. Qed.

Lemma ratings_nonempty_add_rating st u m r :
  ratings_nonempty st → ratings_nonempty (add_rating st u m r).
Proof.
  intros Hinv mid d. rewrite add_rating_movie_ratings, lookup_insert.
  destruct (decide _) as [_|_]; [|apply Hinv].
  intros [= <-]. apply insert_non_empty.
Qed.

Lemma consistent_init : consistent init.
Proof.
  intros uid mid; split.
  - intros (d & H & _). simpl in H. rewrite lookup_empty in H. discriminate.
  - intros (ms & H & _). simpl in H. rewrite lookup_empty in H. discriminate.
Qed.

Lemma consistent_add_rating st u m r :
  consistent st → consistent (add_rating st u m r).
Proof.
  intros Hinv uid mid. specialize (Hinv uid mid).
  rewrite add_rating_movie_ratings, add_rating_user_movies.
  unfold get_movie_ratings, get_user_movies.
  split.
  - intros (d & Hd & Hin). rewrite lookup_insert in Hd.
    destruct (decide (Movie.get_id m = mid)) as [<-|Hm].
    + injection Hd as <-. rewrite lookup_insert in Hin.
      destruct (decide (User.get_id u = uid)) as [<-|Hu].
      * rewrite lookup_insert_eq. eexists; split; [reflexivity|].
        exists m. split; [|reflexivity]. apply elem_of_app. right. left.
      * rewrite lookup_insert_ne by done.
        apply Hinv.
        destruct (_movie_ratings st !! Movie.get_id m) as [d|] eqn:E;
          simpl in Hin.
        -- exists d; done.
        -- rewrite lookup_empty in Hin. destruct Hin; discriminate.
    + destruct (proj1 Hinv) as (ms & Hms & m' & Hm' & Hid); [by exists d|].
      rewrite lookup_insert.
      destruct (decide (User.get_id u = uid)) as [<-|Hu].
      * eexists; split; [reflexivity|]. exists m'. split; [|done].
        rewrite Hms; simpl. apply elem_of_app; by left.
      * exists ms; split; [done|]. by exists m'.
  - intros (ms & Hms & m' & Hm' & Hid). rewrite lookup_insert in Hms.
    rewrite lookup_insert.
    destruct (decide (User.get_id u = uid)) as [<-|Hu].
    + injection Hms as <-.
      destruct (decide (Movie.get_id m = mid)) as [<-|Hm].
      * eexists; split; [reflexivity|]. rewrite lookup_insert_eq. by eexists.
      * apply Hinv. apply elem_of_app in Hm' as [Hm'|Hm'].
        -- destruct (_user_movies st !! User.get_id u) as [ms|] eqn:E;
             simpl in Hm'.
           ++ exists ms; split; [done|]. by exists m'.
           ++ by apply elem_of_nil in Hm'.
        -- apply list_elem_of_singleton in Hm'. congruence.
    + destruct (proj2 Hinv) as (d & Hd & Hin);
        [exists ms; split; [done|]; by exists m'|].
      destruct (decide (Movie.get_id m = mid)) as [<-|Hm].
      * eexists; split; [reflexivity|]. rewrite lookup_insert_ne by done.
        by rewrite Hd.
      * by exists d.
Qed.

Lemma user_movies_nonempty_run calls : user_movies_nonempty (run calls).
Proof.
  apply run_ind.
  - intros uid ms H. simpl in H. rewrite lookup_empty in H. discriminate.
  - intros st u m r IH uid ms. rewrite add_rating_user_movies, lookup_insert.
    destruct (decide _); [|apply IH].
    intros [= <-]. by destruct (get_user_movies st u).
Qed.

(** ** Histories and the stored ratings *)

Lemma last_rating_snoc calls c uid mid :
  last_rating (calls ++ [c]) uid mid
  = if decide (User.get_id (c_user c) = uid ∧ Movie.get_id (c_movie c) = mid)
    then Some (c_rating c) else last_rating calls uid mid.
Proof.
  induction calls as [|c' calls IH]; simpl.
  - destruct (decide _); reflexivity.
  - rewrite IH. destruct (decide _); reflexivity.
Qed.

Lemma get_movie_ratings_run calls m uid :
  get_movie_ratings (run calls) m !! uid
  = last_rating calls uid (Movie.get_id m).
Proof.
  induction calls as [|c calls IH] using rev_ind.
  - unfold get_movie_ratings; simpl. rewrite lookup_empty; simpl.
    apply lookup_empty.
  - rewrite run_snoc, last_rating_snoc. unfold apply_call.
    rewrite get_movie_ratings_add_rating.
    destruct (decide (Movie.get_id (c_movie c) = Movie.get_id m)) as [Hm|Hm].
    + rewrite lookup_insert.
      destruct (decide (User.get_id (c_user c) = uid)) as [Hu|Hu].
      * rewrite decide_True by done. reflexivity.
      * rewrite decide_False by tauto. rewrite <- IH.
        unfold get_movie_ratings. by rewrite Hm.
    + rewrite decide_False by tauto. exact IH.
Qed.

Lemma movie_never_passed_lookup calls mid :
  movie_never_passed calls mid → _movie_ratings (run calls) !! mid = None.
Proof.
  unfold movie_never_passed.
  induction calls as [|c calls IH] using rev_ind; intros H.
  - apply lookup_empty.
  - rewrite Forall_app, Forall_singleton in H. destruct H as [H1 H2].
    rewrite run_snoc. unfold apply_call.
    rewrite add_rating_movie_ratings, lookup_insert_ne by exact H2.
    by apply IH.
Qed.

Lemma user_never_passed_lookup calls uid :
  user_never_passed calls uid → _user_movies (run calls) !! uid = None.
Proof.
  unfold user_never_passed.
  induction calls as [|c calls IH] using rev_ind; intros H.
  - apply lookup_empty.
  - rewrite Forall_app, Forall_singleton in H. destruct H as [H1 H2].
    rewrite run_snoc. unfold apply_call.
    rewrite add_rating_user_movies, lookup_insert_ne by exact H2.
    by apply IH.
Qed.

(** * Properties of the true division *)

(** ** Rounding to an integer *)

Lemma round_half_even_bounds (num den : Z) :
  0 < den →
  num / den <= round_half_even num den <= num / den + 1.
Proof.
  intros Hden. unfold round_half_even.
  destruct (2 * (num mod den) ?= den); [destruct (Z.even _)|..]; lia.
Qed.

Lemma round_half_even_nearest (num den : Z) :
  0 < den →
  2 * Z.abs (round_half_even num den * den - num) <= den
  ∧ (2 * Z.abs (round_half_even num den * den - num) = den →
     Z.even (round_half_even num den) = true).
Proof.
  intros Hden. unfold round_half_even.
  pose proof (Z.div_mod num den ltac:(lia)) as Hdm.
  pose proof (Z.mod_pos_bound num den Hden) as Hr.
  destruct (2 * (num mod den) ?= den) eqn:Hc.
  - apply Z.compare_eq in Hc.
    destruct (Z.even (num / den)) eqn:Hev.
    + split; [nia|]. intros _. exact Hev.
    + split; [nia|]. intros _. rewrite Z.even_add, Hev. reflexivity.
  - rewrite Z.compare_lt_iff in Hc. split; [nia|]. intros H. nia.
  - rewrite Z.compare_gt_iff in Hc. split; [nia|]. intros H. nia.
Qed.

Lemma round_half_even_le (num den K : Z) :
  0 < den → num <= K * den → round_half_even num den <= K.
Proof.
  intros Hden Hle. unfold round_half_even.
  pose proof (Z.div_mod num den ltac:(lia)) as Hdm.
  pose proof (Z.mod_pos_bound num den Hden) as Hr.
  destruct (2 * (num mod den) ?= den) eqn:Hc.
  - apply Z.compare_eq in Hc. destruct (Z.even _); nia.
  - nia.
  - rewrite Z.compare_gt_iff in Hc. nia.
Qed.

Lemma round_half_even_nonneg (num den : Z) :
  0 < den → 0 <= num → 0 <= round_half_even num den.
Proof.
  intros Hden Hnum. pose proof (round_half_even_bounds num den Hden).
  pose proof (Z.div_pos num den Hnum Hden). lia.
Qed.

(** ** Powers of two as rationals *)

Lemma Qpow2_pos (e : Z) : (0 < 2 ^ e)%Q.
Proof. by apply Qpower_0_lt. Qed.

Lemma Qpow2_split (e : Z) :
  (2 ^ e == inject_Z (2 ^ Z.max 0 e) / inject_Z (2 ^ Z.max 0 (- e)))%Q.
Proof.
  destruct (Z.le_gt_cases 0 e) as [He|He].
  - rewrite (Z.max_r 0 e), (Z.max_l 0 (- e)) by lia.
    rewrite (Zpower_Qpower 2 e) by lia. change (inject_Z (2 ^ 0)) with 1%Q.
    change (inject_Z 2) with 2%Q.
    unfold Qdiv. change (/ 1)%Q with 1%Q. rewrite Qmult_1_r. reflexivity.
  - rewrite (Z.max_l 0 e), (Z.max_r 0 (- e)) by lia.
    rewrite (Zpower_Qpower 2 (- e)) by lia.
    change (inject_Z (2 ^ 0)) with 1%Q. change (inject_Z 2) with 2%Q.
    rewrite <- (Z.opp_involutive e) at 1. rewrite Qpower_opp.
    unfold Qdiv. rewrite Qmult_1_l. reflexivity.
Qed.

Lemma scale2_correct (m e : Z) : (scale2 m e == inject_Z m * 2 ^ e)%Q.
Proof.
  unfold scale2. rewrite Qred_correct, inject_Z_mult, (Qpow2_split e).
  field. intros H.
  assert (0 < 2 ^ Z.max 0 (- e)) by (apply Z.pow_pos_nonneg; lia).
  unfold Qeq in H. simpl in H. lia.
Qed.

(** ** The exponent of the last place *)

Lemma inject_Z_pos (z : Z) : 0 < z → (0 < inject_Z z)%Q.
Proof. intros H. change 0%Q with (inject_Z 0). by rewrite <- Zlt_Qlt. Qed.

Lemma Qdiv_mult_cancel (a b : Z) :
  0 < b → (inject_Z a / inject_Z b * inject_Z b == inject_Z a)%Q.
Proof.
  intros Hb. field. intros E. pose proof (inject_Z_pos b Hb) as H.
  rewrite E in H. by apply Qlt_irrefl in H.
Qed.

Lemma Qpow2_succ (k : Z) : (2 ^ (k + 1) == 2 * 2 ^ k)%Q.
Proof. rewrite Qpower_plus by discriminate. apply Qmult_comm. Qed.

Lemma Qpow2_pred (k : Z) : (2 * 2 ^ (k - 1) == 2 ^ k)%Q.
Proof. rewrite <- Qpow2_succ. by replace (k - 1 + 1) with k by lia. Qed.

Lemma pow2_test_iff (a b k : Z) :
  0 < b →
  b * 2 ^ Z.max 0 k <= a * 2 ^ Z.max 0 (- k)
  ↔ (2 ^ k <= inject_Z a / inject_Z b)%Q.
Proof.
  intros Hb.
  assert (HP : 0 < 2 ^ Z.max 0 (- k)) by (apply Z.pow_pos_nonneg; lia).
  pose proof (inject_Z_pos _ Hb) as HbQ.
  pose proof (inject_Z_pos _ HP) as HPQ.
  pose proof (Qdiv_mult_cancel a b Hb) as Hx.
  pose proof (Qdiv_mult_cancel (2 ^ Z.max 0 k) _ HP) as Ht.
  rewrite (Qpow2_split k), Zle_Qle, !inject_Z_mult.
  set (x := (inject_Z a / inject_Z b)%Q) in *.
  set (t := (inject_Z (2 ^ Z.max 0 k) / inject_Z (2 ^ Z.max 0 (- k)))%Q) in *.
  rewrite <- Hx, <- Ht.
  set (B := inject_Z b) in *. set (P := inject_Z (2 ^ Z.max 0 (- k))) in *.
  assert (HBP : (0 < B * P)%Q) by nra.
  setoid_replace (B * (t * P))%Q with (t * (B * P))%Q using relation Qeq
    by ring.
  setoid_replace (x * B * P)%Q with (x * (B * P))%Q using relation Qeq
    by ring.
  by rewrite Qmult_le_r.
Qed.

Lemma Zlog2_Q (a : Z) :
  0 < a →
  (2 ^ Z.log2 a <= inject_Z a ∧ inject_Z a < 2 * 2 ^ Z.log2 a)%Q.
Proof.
  intros Ha. destruct (Z.log2_spec a Ha) as [H1 H2].
  pose proof (Z.log2_nonneg a) as Hl.
  rewrite <- Qpow2_succ. change 2%Q with (inject_Z 2).
  rewrite <- !Zpower_Qpower by lia. rewrite <- Zle_Qle, <- Zlt_Qlt.
  split; [exact H1|]. by rewrite <- Z.add_1_r in H2.
Qed.

Lemma binade_aux (x A B pa pb t : Q) :
  (0 < B → 0 < t → x * B == A → t * pb == pa →
   pa <= A → A < 2 * pa → pb <= B → B < 2 * pb →
   (t <= x → x < 2 * t) ∧ (x < t → t <= 2 * x))%Q.
Proof.
  intros HB Ht Hx Hk Ha1 Ha2 Hb1 Hb2.
  assert (Hmono : (t * pb <= t * B)%Q) by (by apply Qmult_le_l).
  assert (Hmono' : (t * B < t * (2 * pb))%Q) by (by apply Qmult_lt_l).
  split; intros H.
  - apply (Qmult_lt_r _ _ B HB). rewrite Hx.
    eapply Qlt_le_trans; [exact Ha2|]. rewrite <- Hk. lra.
  - apply Qlt_le_weak, (Qmult_lt_r _ _ B HB).
    setoid_replace (2 * x * B)%Q with (2 * (x * B))%Q using relation Qeq
      by ring.
    rewrite Hx. eapply Qlt_le_trans; [exact Hmono'|].
    setoid_replace (t * (2 * pb))%Q with (2 * (t * pb))%Q using relation Qeq
      by ring.
    rewrite Hk. lra.
Qed.

Lemma floor_log2_quot_correct (a b : Z) :
  0 < a → 0 < b →
  (2 ^ floor_log2_quot a b <= inject_Z a / inject_Z b
   ∧ inject_Z a / inject_Z b < 2 * 2 ^ floor_log2_quot a b)%Q.
Proof.
  intros Ha Hb. unfold floor_log2_quot.
  set (k := Z.log2 a - Z.log2 b).
  pose proof (pow2_test_iff a b k Hb) as Htest.
  destruct (Zlog2_Q a Ha) as [Ha1 Ha2]. destruct (Zlog2_Q b Hb) as [Hb1 Hb2].
  assert (Hk : (2 ^ k * 2 ^ Z.log2 b == 2 ^ Z.log2 a)%Q).
  { rewrite <- Qpower_plus by discriminate. unfold k.
    by replace (Z.log2 a - Z.log2 b + Z.log2 b) with (Z.log2 a) by lia. }
  destruct (binade_aux _ _ _ _ _ _ (inject_Z_pos b Hb) (Qpow2_pos k)
              (Qdiv_mult_cancel a b Hb) Hk Ha1 Ha2 Hb1 Hb2) as [Hup Hlow].
  destruct (decide _) as [Hle|Hgt].
  - apply Htest in Hle. split; [exact Hle | by apply Hup].
  - assert (Hlt : (inject_Z a / inject_Z b < 2 ^ k)%Q).
    { apply Qnot_le_lt. intros H. apply Hgt, Htest, H. }
    rewrite Qpow2_pred. split; [|exact Hlt].
    apply Hlow in Hlt. rewrite <- (Qpow2_pred k) in Hlt. lra.
Qed.

Lemma pow2_pos (n : Z) : 0 < 2 ^ Z.max 0 n.
Proof. apply Z.pow_pos_nonneg; lia. Qed.

(** [x / 2^e], for [x = a / b], is the quotient the mantissa is rounded
    from. *)
Lemma scaled_quotient (a b e : Z) :
  0 < b →
  (inject_Z a / inject_Z b * inject_Z (b * 2 ^ Z.max 0 e)
   == inject_Z (a * 2 ^ Z.max 0 (- e)) * 2 ^ e)%Q.
Proof.
  intros Hb. rewrite !inject_Z_mult.
  pose proof (inject_Z_pos _ (pow2_pos (- e))) as HPQ.
  assert (Hp : (2 ^ e * inject_Z (2 ^ Z.max 0 (- e))
                == inject_Z (2 ^ Z.max 0 e))%Q).
  { rewrite (Qpow2_split e). field. intros E. rewrite E in HPQ.
    by apply Qlt_irrefl in HPQ. }
  setoid_replace (inject_Z a / inject_Z b
                  * (inject_Z b * inject_Z (2 ^ Z.max 0 e)))%Q
    with (inject_Z a / inject_Z b * inject_Z b * inject_Z (2 ^ Z.max 0 e))%Q
    using relation Qeq by ring.
  rewrite (Qdiv_mult_cancel a b Hb), <- Hp. ring.
Qed.

Lemma binade_of_exponent (a b : Z) :
  0 < a → 0 < b →
  (2 ^ (b64_exponent a b + 52) <= inject_Z a / inject_Z b
   ∧ inject_Z a / inject_Z b < 2 ^ (b64_exponent a b + 53))%Q
  ∨ (b64_exponent a b = -1074
     ∧ (inject_Z a / inject_Z b < 2 ^ (b64_exponent a b + 52))%Q).
Proof.
  intros Ha Hb.
  destruct (floor_log2_quot_correct a b Ha Hb) as [Hlo Hhi].
  rewrite <- Qpow2_succ in Hhi. unfold b64_exponent.
  destruct (Z.max_spec (floor_log2_quot a b - 52) (-1074))
    as [[Hlt ->]|[Hle ->]].
  - right. split; [reflexivity|].
    eapply Qlt_le_trans; [exact Hhi|].
    apply Qpower_le_compat_l; [lia | discriminate].
  - left. replace (floor_log2_quot a b - 52 + 52) with (floor_log2_quot a b)
      by lia.
    replace (floor_log2_quot a b - 52 + 53) with (floor_log2_quot a b + 1)
      by lia.
    by split.
Qed.

(** The distance of [m * 2^e] to [x] in terms of the integer remainder. *)
Lemma scaled_distance (x p : Q) (m num den : Z) :
  0 < den → (0 < p)%Q →
  (x * inject_Z den == inject_Z num * p)%Q →
  ((inject_Z m * p - x) * inject_Z den
   == p * inject_Z (m * den - num))%Q.
Proof.
  intros Hden Hp Hx.
  setoid_replace ((inject_Z m * p - x) * inject_Z den)%Q
    with (inject_Z m * p * inject_Z den - x * inject_Z den)%Q
    using relation Qeq by ring.
  rewrite Hx. unfold Z.sub.
  rewrite inject_Z_plus, inject_Z_opp, inject_Z_mult. ring.
Qed.

Lemma half_distance (x p : Q) (m num den : Z) :
  0 < den → (0 < p)%Q →
  (x * inject_Z den == inject_Z num * p)%Q →
  2 * Z.abs (m * den - num) <= den →
  (Qabs (inject_Z m * p - x) <= p * (1 # 2))%Q.
Proof.
  intros Hden Hp Hx Hnear.
  pose proof (inject_Z_pos den Hden) as HD.
  pose proof (scaled_distance x p m num den Hden Hp Hx) as Hd.
  apply Qabs_Qle_condition.
  assert (H1 : (- inject_Z den <= 2 * inject_Z (m * den - num))%Q).
  { change 2%Q with (inject_Z 2).
    rewrite <- inject_Z_mult, <- inject_Z_opp, <- Zle_Qle. lia. }
  assert (H2 : (2 * inject_Z (m * den - num) <= inject_Z den)%Q).
  { change 2%Q with (inject_Z 2). rewrite <- inject_Z_mult, <- Zle_Qle. lia. }
  set (z := inject_Z (m * den - num)) in *. set (D := inject_Z den) in *.
  set (d := (inject_Z m * p - x)%Q) in *. clearbody z D d.
  split.
  - apply (Qmult_le_r _ _ D HD). rewrite Hd.
    setoid_replace (- (p * (1 # 2)) * D)%Q with (p * (- D * (1 # 2)))%Q
      using relation Qeq by ring.
    apply Qmult_le_l; [exact Hp|]. lra.
  - apply (Qmult_le_r _ _ D HD). rewrite Hd.
    setoid_replace (p * (1 # 2) * D)%Q with (p * (D * (1 # 2)))%Q
      using relation Qeq by ring.
    apply Qmult_le_l; [exact Hp|]. lra.
Qed.

Lemma tie_distance (x p : Q) (m num den : Z) :
  0 < den → (0 < p)%Q →
  (x * inject_Z den == inject_Z num * p)%Q →
  (Qabs (inject_Z m * p - x) == p * (1 # 2))%Q →
  2 * Z.abs (m * den - num) = den.
Proof.
  intros Hden Hp Hx Htie.
  pose proof (inject_Z_pos den Hden) as HD.
  pose proof (scaled_distance x p m num den Hden Hp Hx) as Hd.
  assert (Hcases : (inject_Z m * p - x == p * (1 # 2)
                    ∨ inject_Z m * p - x == - (p * (1 # 2)))%Q).
  { revert Htie. apply Qabs_case; intros _ H; [by left|right].
    rewrite <- H. ring. }
  assert (Hp0 : ¬ (p == 0)%Q).
  { intros E. rewrite E in Hp. by apply Qlt_irrefl in Hp. }
  assert (Hz : (2 * inject_Z (m * den - num) == inject_Z den
                ∨ 2 * inject_Z (m * den - num) == - inject_Z den)%Q).
  { destruct Hcases as [Hc|Hc]; rewrite Hc in Hd; [left|right];
      apply (Qmult_inj_l _ _ p Hp0);
      setoid_replace (p * (2 * inject_Z (m * den - num)))%Q
        with (2 * (p * inject_Z (m * den - num)))%Q using relation Qeq
        by ring;
      rewrite <- Hd; ring. }
  change 2%Q with (inject_Z 2) in Hz.
  rewrite <- inject_Z_opp, <- !inject_Z_mult, !inject_Z_injective in Hz. lia.
Qed.

Lemma b64_mantissa_range (a b : Z) :
  0 < a → 0 < b → 0 <= b64_mantissa a b <= 2 ^ 53.
Proof.
  intros Ha Hb. unfold b64_mantissa.
  set (e := b64_exponent a b).
  assert (Hden : 0 < b * 2 ^ Z.max 0 e)
    by (apply Z.mul_pos_pos; [exact Hb | apply pow2_pos]).
  assert (Hnum : 0 <= a * 2 ^ Z.max 0 (- e))
    by (apply Z.mul_nonneg_nonneg; [lia | apply Z.lt_le_incl, pow2_pos]).
  split; [by apply round_half_even_nonneg|].
  apply round_half_even_le; [exact Hden|].
  assert (Hlt : (inject_Z a / inject_Z b < 2 ^ (e + 53))%Q).
  { destruct (binade_of_exponent a b Ha Hb) as [[_ H]|[_ H]]; fold e in H;
      [exact H|].
    eapply Qlt_le_trans; [exact H|].
    apply Qpower_le_compat_l; [lia | discriminate]. }
  apply (Qmult_lt_r _ _ (inject_Z (b * 2 ^ Z.max 0 e))) in Hlt;
    [|by apply inject_Z_pos].
  rewrite (scaled_quotient a b e Hb) in Hlt.
  rewrite Qpower_plus in Hlt by discriminate.
  setoid_replace (2 ^ e * 2 ^ 53 * inject_Z (b * 2 ^ Z.max 0 e))%Q
    with (inject_Z (2 ^ 53 * (b * 2 ^ Z.max 0 e)) * 2 ^ e)%Q
    using relation Qeq in Hlt
    by (rewrite (inject_Z_mult (2 ^ 53));
        change (inject_Z (2 ^ 53)) with (2 ^ 53)%Q; ring).
  apply Qmult_lt_r in Hlt; [|apply Qpow2_pos].
  rewrite <- Zlt_Qlt in Hlt. lia.
Qed.

Lemma b64_round_div_nearest (a b : Z) :
  0 < a → 0 < b →
  b64_nearest (inject_Z a / inject_Z b) (b64_round_div a b).
Proof.
  intros Ha Hb. exists (b64_mantissa a b), (b64_exponent a b).
  pose proof (scaled_quotient a b (b64_exponent a b) Hb) as Hx.
  assert (Hden : 0 < b * 2 ^ Z.max 0 (b64_exponent a b))
    by (apply Z.mul_pos_pos; [exact Hb | apply pow2_pos]).
  destruct (round_half_even_nearest
              (a * 2 ^ Z.max 0 (- b64_exponent a b))
              (b * 2 ^ Z.max 0 (b64_exponent a b)) Hden) as [Hnear Heven].
  fold (b64_mantissa a b) in Hnear, Heven.
  split; [apply scale2_correct|].
  split; [by apply b64_mantissa_range|].
  split; [apply Z.le_max_r|].
  split; [by apply binade_of_exponent|].
  unfold b64_round_div. rewrite scale2_correct. split.
  - eapply half_distance; [exact Hden | apply Qpow2_pos | exact Hx | exact Hnear].
  - intros Htie. apply Heven.
    eapply tie_distance; [exact Hden | apply Qpow2_pos | exact Hx | exact Htie].
Qed.

Lemma floor_log2_quot_le (a b : Z) :
  floor_log2_quot a b <= Z.log2 a - Z.log2 b.
Proof. unfold floor_log2_quot. destruct (decide _); lia. Qed.

Lemma b64_exponent_neg (a b : Z) :
  0 < a → 0 < b → a <= 5 * b → b64_exponent a b < 0.
Proof.
  intros Ha Hb Hle. unfold b64_exponent.
  pose proof (floor_log2_quot_le a b) as HL.
  assert (Hlog : Z.log2 a <= Z.log2 b + 3).
  { rewrite Z.add_comm, <- (Z.log2_mul_pow2 b 3) by lia.
    apply Z.log2_le_mono. lia. }
  lia.
Qed.

Lemma b64_round_div_0 (b : Z) : 0 < b → b64_round_div 0 b = inject_Z 0.
Proof.
  intros Hb. unfold b64_round_div, b64_mantissa, scale2.
  set (e := b64_exponent 0 b).
  assert (Hm : round_half_even (0 * 2 ^ Z.max 0 (- e)) (b * 2 ^ Z.max 0 e) = 0).
  { pose proof (pow2_pos e) as Hp.
    unfold round_half_even. rewrite Z.mul_0_l, Z.mod_0_l, Z.div_0_l by lia.
    replace (2 * 0 ?= b * 2 ^ Z.max 0 e) with Lt; [reflexivity|].
    symmetry. apply Z.compare_lt_iff. lia. }
  rewrite Hm. change (inject_Z 0) with (Qred 0). apply Qred_complete.
  rewrite Z.mul_0_l. unfold Qdiv. change (inject_Z 0) with 0%Q. ring.
Qed.

Lemma b64_round_div_bounds (a b : Z) :
  0 < b → 0 <= a <= 5 * b →
  (inject_Z 0 <= b64_round_div a b)%Q ∧ (b64_round_div a b <= inject_Z 5)%Q.
Proof.
  intros Hb [Ha0 Ha5].
  destruct (Z.eq_dec a 0) as [->|Hne].
  { rewrite b64_round_div_0 by done. split; by rewrite <- Zle_Qle. }
  assert (Ha : 0 < a) by lia.
  pose proof (b64_exponent_neg a b Ha Hb Ha5) as He.
  pose proof (b64_mantissa_range a b Ha Hb) as [Hm0 _].
  unfold b64_round_div. rewrite scale2_correct.
  set (e := b64_exponent a b) in *.
  assert (Hm5 : b64_mantissa a b <= 5 * 2 ^ (- e)).
  { unfold b64_mantissa. fold e. apply round_half_even_le.
    - apply Z.mul_pos_pos; [exact Hb | apply pow2_pos].
    - rewrite (Z.max_l 0 e), (Z.max_r 0 (- e)) by lia.
      assert (0 < 2 ^ (- e)) by (apply Z.pow_pos_nonneg; lia).
      change (2 ^ 0) with 1. nia. }
  pose proof (Qpow2_pos e) as Hp.
  split.
  - change (inject_Z 0) with 0%Q. apply Qmult_le_0_compat.
    + change 0%Q with (inject_Z 0). by rewrite <- Zle_Qle.
    + by apply Qlt_le_weak.
  - assert (H5 : (inject_Z (5 * 2 ^ (- e)) * 2 ^ e == inject_Z 5)%Q).
    { rewrite inject_Z_mult, Zpower_Qpower by lia.
      change (inject_Z 2) with 2%Q. rewrite <- Qmult_assoc.
      rewrite <- Qpower_plus by discriminate.
      replace (- e + e) with 0 by lia. change (2 ^ 0)%Q with 1%Q. ring. }
    rewrite <- H5. apply Qmult_le_r; [exact Hp|]. by rewrite <- Zle_Qle.
Qed.

Lemma py_true_div_ratings (s n : Z) :
  0 < n → 0 <= s <= 5 * n → py_true_div s n = Ok (b64_round_div s n).
Proof.
  intros Hn [Hs0 Hs5]. unfold py_true_div.
  rewrite decide_False by lia.
  destruct (decide (s = 0)) as [->|Hne]; [by rewrite b64_round_div_0|].
  rewrite (Z.abs_eq s), (Z.abs_eq n) by lia.
  destruct (b64_round_div_bounds s n Hn (conj Hs0 Hs5)) as [_ Hle].
  destruct (Qle_bool _ _) eqn:Hov.
  - apply Qle_bool_iff in Hov.
    pose proof (Qle_trans _ _ _ Hov Hle) as H. rewrite <- Zle_Qle in H.
    exfalso. revert H. apply Z.lt_nge. reflexivity.
  - rewrite decide_True; [reflexivity|].
    rewrite !Z.sgn_pos by lia. reflexivity.
Qed.

(** On these quotients the rounding agrees with the division of the
    Standard Library's IEEE-754 specification. *)
Example b64_round_div_agrees_with_SFdiv :
  Forall (fun '(a, b) => sf_div a b = Some (b64_round_div (Z.pos a) (Z.pos b)))
    [(1, 3); (2, 3); (5, 2); (14, 3); (4, 1); (5, 1); (1, 7); (33, 7);
     (335544319, 67108864); (335544324, 67108865);
     (9007199254740991, 2); (1, 9007199254740991)]%positive.
Proof.
  repeat (apply Forall_cons_2; [vm_compute; reflexivity|]). apply Forall_nil_2.
Qed.

(** ** The average rating *)

Lemma Zsum_values_bounds (l : list MovieRating) :
  0 <= Zsum (value <$> l) <= 5 * Z.of_nat (length l).
Proof.
  induction l as [|r l IH]; [unfold Zsum; simpl; lia|].
  change (Zsum (value <$> r :: l)) with (value r + Zsum (value <$> l)).
  rewrite length_cons. destruct r; simpl value; lia.
Qed.


Lemma sum_from_total {A} (g : A -> Z) (acc : Z) (xs : list A) :
  sum_from (fun x => Ok (g x)) acc xs = Ok (acc + Zsum (g <$> xs)).
Proof.
  revert acc. induction xs as [|x xs IH]; intros acc; cbn [sum_from rbind].
  - f_equal. unfold Zsum; simpl. lia.
  - rewrite IH. f_equal.
    change (Zsum (g <$> x :: xs)) with (g x + Zsum (g <$> xs)). lia.
Qed.

Lemma length_values (d : gmap Z MovieRating) : length (values d) = size d.
Proof. unfold values. rewrite length_fmap. apply length_map_to_list. Qed.

Lemma get_average_rating_rated st m d :
  _movie_ratings st !! Movie.get_id m = Some d → d ≠ ∅ →
  get_average_rating st m
  = Ok (b64_round_div (Zsum (value <$> values d)) (Z.of_nat (size d))).
Proof.
  intros Hd Hne. unfold get_average_rating, py_sum. rewrite Hd.
  rewrite sum_from_total. cbn [rbind]. rewrite Z.add_0_l, length_values.
  apply py_true_div_ratings.
  - apply map_size_non_empty_iff in Hne. lia.
  - rewrite <- length_values. apply Zsum_values_bounds.
Qed.

Lemma get_average_rating_unrated st m :
  _movie_ratings st !! Movie.get_id m = None →
  get_average_rating st m = Ok (inject_Z 0).
Proof. intros H. unfold get_average_rating. by rewrite H. Qed.

(** On a register that stores no empty dictionary the average is defined
    for every movie. *)
Lemma get_average_rating_total st m :
  ratings_nonempty st →
  get_average_rating st m = Ok (average st m).
Proof.
  intros Hinv. unfold average.
  destruct (_movie_ratings st !! Movie.get_id m) as [d|] eqn:E.
  - apply get_average_rating_rated; [done|]. by apply (Hinv _ _ E).
  - by apply get_average_rating_unrated.
Qed.

Lemma Zsum_perm (l l' : list Z) : l ≡ₚ l' → Zsum l = Zsum l'.
Proof.
  induction 1 as [|x l l' _ IH|x y l|l l' l'' _ IH1 _ IH2]; unfold Zsum in *;
    simpl; lia.
Qed.

Lemma sum_values_insert_fresh (d : gmap Z MovieRating) k r :
  d !! k = None →
  Zsum (value <$> values (<[k := r]> d))
  = value r + Zsum (value <$> values d).
Proof.
  intros Hk. unfold values.
  rewrite (Zsum_perm _ (value <$> ((k, r) :: map_to_list d).*2)).
  - reflexivity.
  - do 2 apply fmap_Permutation. by apply map_to_list_insert.
Qed.

Lemma sum_values_insert (d : gmap Z MovieRating) k r :
  Zsum (value <$> values (<[k := r]> d))
  = Zsum (value <$> values d) - value (default NOT_RATED (d !! k)) + value r.
Proof.
  destruct (d !! k) as [r0|] eqn:E; simpl.
  - rewrite <- (insert_delete_eq d).
    rewrite <- (insert_delete_id d k r0 E) at 2.
    rewrite !sum_values_insert_fresh by apply lookup_delete_eq. lia.
  - rewrite sum_values_insert_fresh by done. lia.
Qed.

(** The float returned for a sum [s >= 0] of [n > 0] values is the one
    nearest to the exact quotient. *)
Lemma b64_round_div_nearest_quotient (s n : Z) :
  0 < n → 0 <= s →
  b64_nearest (inject_Z s / inject_Z n) (b64_round_div s n).
Proof.
  intros Hn Hs. destruct (decide (s = 0)) as [->|Hne].
  - rewrite b64_round_div_0 by done.
    assert (Hx : (inject_Z 0 / inject_Z n == 0)%Q)
      by (unfold Qdiv; apply Qmult_0_l).
    exists 0, (-1074). split; [by rewrite Qmult_0_l|].
    split; [split; [lia | by apply Z.pow_nonneg]|]. split; [lia|].
    split; [right; split; [done|]; rewrite Hx; apply Qpow2_pos|].
    assert (Hd : (Qabs (inject_Z 0 - inject_Z 0 / inject_Z n) == 0)%Q)
      by (rewrite Hx; reflexivity).
    split; [|done]. rewrite Hd.
    apply Qlt_le_weak, Qmult_lt_0_compat; [apply Qpow2_pos | reflexivity].
  - apply b64_round_div_nearest; lia.
Qed.

Lemma get_average_rating_nearest st m d :
  _movie_ratings st !! Movie.get_id m = Some d → d ≠ ∅ →
  ∃ v, get_average_rating st m = Ok v ∧ b64_nearest (mean_of d) v.
Proof.
  intros Hd Hne. eexists. split; [by apply get_average_rating_rated|].
  unfold mean_of. apply b64_round_div_nearest_quotient.
  - apply map_size_non_empty_iff in Hne. lia.
  - apply Zsum_values_bounds.
Qed.

(** ** [max] with a key that never raises *)

Lemma Qgtb_true (a b : Q) : Qgtb a b = true ↔ (b < a)%Q.
Proof.
  unfold Qgtb. rewrite negb_true_iff, <- not_true_iff_false, Qle_bool_iff.
  split; [apply Qnot_le_lt | apply Qlt_not_le].
Qed.

Lemma Qgtb_false (a b : Q) : Qgtb a b = false ↔ (a <= b)%Q.
Proof.
  unfold Qgtb. rewrite negb_false_iff. apply Qle_bool_iff.
Qed.

Section Max.
Context {A : Type} (key : A -> result Q) (k : A -> Q).
Hypothesis key_total : ∀ x, key x = Ok (k x).

Lemma max_from_first_max (rest : list A) :
  ∀ (seen : list A) (maxitem : A),
    first_max k seen maxitem →
    ∃ m, max_from key maxitem (k maxitem) rest = Ok m
         ∧ first_max k (seen ++ rest) m.
Proof.
  induction rest as [|x rest IH]; intros seen maxitem Hinv.
  - exists maxitem. split; [reflexivity|]. by rewrite app_nil_r.
  - cbn [max_from]. rewrite key_total. cbn [rbind].
    replace (seen ++ x :: rest) with ((seen ++ [x]) ++ rest)
      by (by rewrite <- app_assoc).
    destruct Hinv as (pre & post & -> & Hpre & Hpost).
    destruct (Qgtb (k x) (k maxitem)) eqn:Hcmp.
    + apply Qgtb_true in Hcmp. apply IH.
      exists (pre ++ maxitem :: post), []. split; [reflexivity|]. split.
      * intros y Hy. apply elem_of_app in Hy as [Hy|Hy].
        -- eapply Qlt_trans; [by apply Hpre | done].
        -- apply elem_of_cons in Hy as [->|Hy]; [done|].
           eapply Qle_lt_trans; [by apply Hpost | done].
      * intros y Hy. by apply elem_of_nil in Hy.
    + apply Qgtb_false in Hcmp. apply IH.
      exists pre, (post ++ [x]). split; [by rewrite <- app_assoc|]. split.
      * exact Hpre.
      * intros y Hy. apply elem_of_app in Hy as [Hy|Hy]; [by apply Hpost|].
        apply list_elem_of_singleton in Hy as ->. done.
Qed.

Lemma py_max_first_max (xs : list A) :
  match xs with
  | [] => py_max key xs = Ok None
  | _ :: _ => ∃ m, py_max key xs = Ok (Some m) ∧ first_max k xs m
  end.
Proof.
  destruct xs as [|x rest]; [reflexivity|].
  cbn [py_max]. rewrite key_total. cbn [rbind].
  destruct (max_from_first_max rest [x] x) as (m & Hm & Hspec).
  - exists [], []. split; [reflexivity|].
    split; intros y Hy; by apply elem_of_nil in Hy.
  - exists m. rewrite Hm. split; [reflexivity | exact Hspec].
Qed.

End Max.

(** ** The search for the best unwatched movie *)

Section FindUnwatched.
Variables (st : RatingRegister.t) (user reviewer : User.t).

Let P (m : Movie.t) : Prop := unwatched st user m.
Let f (m : Movie.t) : Z := reviewer_value st reviewer m.

Lemma value_nonneg (r : MovieRating) : 0 <= value r.
Proof. destruct r; simpl; lia. Qed.

Lemma reviewer_value_nonneg (m : Movie.t) : 0 <= f m.
Proof. apply value_nonneg. Qed.

(** The guard of the loop succeeds only on a movie the reviewer has an
    entry for, so the subscript that follows it cannot raise. *)
Lemma getitem_after_guard (m : Movie.t) (best_rating : Z) :
  0 <= best_rating → f m > best_rating →
  ∃ r, getitem (get_movie_ratings st m) (User.get_id reviewer) = Ok r
       ∧ value r = f m.
Proof.
  unfold f, reviewer_value, getitem. intros Hb.
  destruct (get_movie_ratings st m !! User.get_id reviewer) as [r|]; simpl.
  - intros _. by exists r.
  - lia.
Qed.

Lemma find_unwatched_movie_loop_spec (rest : list Movie.t) :
  ∀ (seen : list Movie.t) (best_movie : option Movie.t) (best_rating : Z),
    first_best_above_zero P f seen best_movie →
    best_rating = from_option f 0 best_movie →
    ∃ res,
      _find_unwatched_movie_loop st (list_to_set (get_user_movies st user))
        reviewer best_movie best_rating rest = Ok res
      ∧ first_best_above_zero P f (seen ++ rest) res.
Proof.
  induction rest as [|m rest IH]; intros seen best_movie best_rating Hinv Hbr.
  - exists best_movie. split; [reflexivity|]. by rewrite app_nil_r.
  - cbn [_find_unwatched_movie_loop].
    replace (seen ++ m :: rest) with ((seen ++ [m]) ++ rest)
      by (by rewrite <- app_assoc).
    assert (Hb0 : 0 <= best_rating).
    { subst best_rating. destruct best_movie; simpl;
        [apply reviewer_value_nonneg | lia]. }
    fold (reviewer_value st reviewer m). fold (f m).
    destruct (bool_decide (m ∉ list_to_set (get_user_movies st user)
                             (C := gset Movie.t))) eqn:Hin;
      [destruct (bool_decide (f m > best_rating)) eqn:Hgt|]; cbn [andb].
    + apply bool_decide_eq_true in Hin, Hgt.
      rewrite elem_of_list_to_set in Hin.
      destruct (getitem_after_guard m best_rating Hb0 Hgt) as (r & -> & Hr).
      cbn [rbind]. apply IH; [|by rewrite Hr].
      exists seen, []. split; [reflexivity|].
      split; [exact Hin|]. split; [lia|]. split.
      * intros x Hx HPx. destruct best_movie as [b|]; simpl in Hbr, Hinv.
        -- destruct Hinv as (pre & post & -> & _ & _ & Hpre & Hpost).
           apply elem_of_app in Hx as [Hx|Hx].
           ++ specialize (Hpre x Hx HPx). lia.
           ++ apply elem_of_cons in Hx as [->|Hx]; [lia|].
              specialize (Hpost x Hx HPx). lia.
        -- specialize (Hinv x Hx HPx). lia.
      * intros x Hx. by apply elem_of_nil in Hx.
    + apply bool_decide_eq_true in Hin. apply bool_decide_eq_false in Hgt.
      apply IH; [|exact Hbr].
      destruct best_movie as [b|]; simpl in Hbr, Hinv |- *.
      * destruct Hinv as (pre & post & -> & HPb & Hpos & Hpre & Hpost).
        exists pre, (post ++ [m]). split; [by rewrite <- app_assoc|].
        repeat split; try done.
        intros x Hx HPx. apply elem_of_app in Hx as [Hx|Hx];
          [by apply Hpost|].
        apply list_elem_of_singleton in Hx as ->. lia.
      * intros x Hx HPx. apply elem_of_app in Hx as [Hx|Hx];
          [by apply Hinv|].
        apply list_elem_of_singleton in Hx as ->. lia.
    + apply bool_decide_eq_false in Hin.
      rewrite elem_of_list_to_set in Hin.
      apply IH; [|exact Hbr].
      destruct best_movie as [b|]; simpl in Hbr, Hinv |- *.
      * destruct Hinv as (pre & post & -> & HPb & Hpos & Hpre & Hpost).
        exists pre, (post ++ [m]). split; [by rewrite <- app_assoc|].
        repeat split; try done.
        intros x Hx HPx. apply elem_of_app in Hx as [Hx|Hx];
          [by apply Hpost|].
        apply list_elem_of_singleton in Hx as ->. by destruct Hin.
      * intros x Hx HPx. apply elem_of_app in Hx as [Hx|Hx];
          [by apply Hinv|].
        apply list_elem_of_singleton in Hx as ->. by destruct Hin.
Qed.

End FindUnwatched.

Lemma find_unwatched_movie_spec st user reviewer :
  ∃ res, _find_unwatched_movie st user reviewer = Ok res
         ∧ first_best_above_zero (unwatched st user)
             (reviewer_value st reviewer)
             (get_user_movies st reviewer) res.
Proof.
  unfold _find_unwatched_movie.
  apply (find_unwatched_movie_loop_spec st user reviewer
           (get_user_movies st reviewer) [] None 0); [|reflexivity].
  intros x Hx. by apply elem_of_nil in Hx.
Qed.

(** ** The dissimilarity score *)

Lemma sum_from_pointwise {A} (f : A -> result Z) (g : A -> Z) (xs : list A) :
  ∀ acc, (∀ x, x ∈ xs → f x = Ok (g x)) →
         sum_from f acc xs = Ok (acc + Zsum (g <$> xs)).
Proof.
  induction xs as [|x xs IH]; intros acc Hf; cbn [sum_from].
  - f_equal. unfold Zsum; simpl. lia.
  - rewrite (Hf x) by left. cbn [rbind].
    rewrite IH by (intros y Hy; apply Hf; by right). f_equal.
    change (Zsum (g <$> x :: xs)) with (g x + Zsum (g <$> xs)). lia.
Qed.

Lemma rated_has_entry st u m :
  consistent st → m ∈ get_user_movies st u →
  ∃ r, get_movie_ratings st m !! User.get_id u = Some r.
Proof.
  intros Hinv Hm. unfold get_user_movies in Hm.
  destruct (_user_movies st !! User.get_id u) as [ms|] eqn:E; simpl in Hm;
    [|by apply elem_of_nil in Hm].
  destruct (proj2 (Hinv (User.get_id u) (Movie.get_id m)))
    as (d & Hd & [r Hr]); [exists ms; split; [done|]; by exists m|].
  exists r. unfold get_movie_ratings. by rewrite Hd.
Qed.

Lemma elem_of_common_movies st u1 u2 m :
  m ∈ common_movies st u1 u2
  ↔ m ∈ get_user_movies st u1 ∧ m ∈ get_user_movies st u2.
Proof.
  unfold common_movies.
  by rewrite elem_of_intersection, !elem_of_list_to_set.
Qed.

Lemma calculate_similarity_consistent st u1 u2 :
  consistent st →
  _calculate_similarity st u1 u2
  = Ok (or_inf (Zsum (rating_gap st u1 u2
                        <$> elements (common_movies st u1 u2)))).
Proof.
  intros Hinv. unfold _calculate_similarity, py_sum.
  fold (common_movies st u1 u2).
  rewrite (sum_from_pointwise _ (rating_gap st u1 u2)); [reflexivity|].
  intros m Hm. apply elem_of_elements, elem_of_common_movies in Hm as [H1 H2].
  destruct (rated_has_entry st u1 m Hinv H1) as [r1 Hr1].
  destruct (rated_has_entry st u2 m Hinv H2) as [r2 Hr2].
  unfold getitem, rating_gap, reviewer_value. by rewrite Hr1, Hr2.
Qed.

(** ** The search for the most similar reviewer *)

Lemma score_ltb_inf (lowest : score) : score_ltb Inf lowest = false.
Proof. reflexivity. Qed.

(** A reviewer whose score is infinite leaves both locals of the loop
    unchanged. *)
Lemma infinite_score_skipped st user best lowest reviewer rest :
  _calculate_similarity st user reviewer = Ok Inf →
  _recommend_for_existing_user_loop st user best lowest (reviewer :: rest)
  = _recommend_for_existing_user_loop st user best lowest rest.
Proof.
  intros Hsc. cbn [_recommend_for_existing_user_loop].
  destruct (decide _); [reflexivity|]. by rewrite Hsc.
Qed.

Lemma existing_user_loop_all_infinite st user best lowest reviewers :
  (∀ r, r ∈ reviewers → User.get_id r ≠ User.get_id user →
        _calculate_similarity st user r = Ok Inf) →
  _recommend_for_existing_user_loop st user best lowest reviewers = Ok best.
Proof.
  induction reviewers as [|r rest IH]; intros Hall; [reflexivity|].
  destruct (decide (User.get_id r = User.get_id user)) as [Heq|Hne].
  - cbn [_recommend_for_existing_user_loop]. rewrite decide_True by done.
    apply IH. intros r' Hr'. apply Hall. by right.
  - rewrite infinite_score_skipped by (apply Hall; [left|done]).
    apply IH. intros r' Hr'. apply Hall. by right.
Qed.

Lemma existing_user_loop_total st user reviewers :
  consistent st →
  ∀ best lowest, ∃ res,
    _recommend_for_existing_user_loop st user best lowest reviewers = Ok res.
Proof.
  intros Hinv. induction reviewers as [|r rest IH]; intros best lowest.
  - by exists best.
  - cbn [_recommend_for_existing_user_loop].
    destruct (decide _); [apply IH|].
    rewrite calculate_similarity_consistent by done. cbn [rbind].
    destruct (score_ltb _ _); [|apply IH].
    destruct (find_unwatched_movie_spec st user r) as (bm & -> & _).
    cbn [rbind]. apply IH.
Qed.

(** ** Reachable registers *)

Lemma consistent_run calls : consistent (run calls).
Proof.
  apply run_ind; [apply consistent_init|].
  intros st u m r. apply consistent_add_rating.
Qed.

Lemma ratings_nonempty_run calls : ratings_nonempty (run calls).
Proof.
  apply run_ind; [apply ratings_nonempty_init|].
  intros st u m r. apply ratings_nonempty_add_rating.
Qed.

Lemma get_average_rating_run calls m :
  get_average_rating (run calls) m = Ok (average (run calls) m).
Proof. apply get_average_rating_total, ratings_nonempty_run. Qed.

Lemma never_passed_no_movies calls user :
  user_never_passed calls (User.get_id user) →
  get_user_movies (run calls) user = [].
Proof.
  intros H. unfold get_user_movies.
  by rewrite (user_never_passed_lookup _ _ H).
Qed.

(** No query of the recommender raises on a reachable register. *)
Lemma recommend_movie_total calls user :
  ∃ v, recommend_movie (run calls) user = Ok v.
Proof.
  unfold recommend_movie. destruct (get_user_movies (run calls) user).
  - unfold _recommend_for_new_user.
    pose proof (py_max_first_max (get_average_rating (run calls))
                  (average (run calls)) (get_average_rating_run calls)
                  (get_movies (run calls))) as H.
    destruct (get_movies (run calls)).
    + rewrite H. by eexists.
    + destruct H as (m & -> & _). by eexists.
  - unfold _recommend_for_existing_user.
    destruct (existing_user_loop_total (run calls) user
                (get_users (run calls)) (consistent_run calls) None Inf)
      as [res ->].
    by eexists.
Qed.

(** ** Two means that round to the same float *)

Lemma block_S movie n :
  Tie.block movie (S n)
  = Tie.block movie n ++ [Call (Tie.viewer n) movie (Tie.vote n)].
Proof. unfold Tie.block. by rewrite seq_S, fmap_app. Qed.

Lemma block_frame pre mv n mid :
  mid ≠ Movie.get_id mv →
  _movie_ratings (run (pre ++ Tie.block mv n)) !! mid
  = _movie_ratings (run pre) !! mid.
Proof.
  intros Hne. induction n as [|n IH].
  - unfold Tie.block. simpl. by rewrite app_nil_r.
  - rewrite block_S, app_assoc, run_snoc. unfold apply_call. simpl.
    rewrite add_rating_movie_ratings, lookup_insert_ne by done. exact IH.
Qed.

Lemma values_empty : values (∅ : gmap Z MovieRating) = [].
Proof. unfold values. by rewrite map_to_list_empty. Qed.

Lemma block_state pre mv n :
  movie_never_passed pre (Movie.get_id mv) → (0 < n)%nat →
  get_movies (run (pre ++ Tie.block mv n)) = get_movies (run pre) ++ [mv]
  ∧ ∃ d, _movie_ratings (run (pre ++ Tie.block mv n)) !! Movie.get_id mv
         = Some d
         ∧ size d = n
         ∧ Zsum (value <$> values d) = 5 * Z.of_nat n - 1
         ∧ ∀ k, Z.of_nat n <= k → d !! k = None.
Proof.
  intros Hpre Hn. destruct n as [|n]; [lia|clear Hn].
  induction n as [|n (IHm & d & IHd & IHsize & IHsum & IHfresh)].
  - rewrite block_S. change (Tie.block mv 0) with (@nil call).
    rewrite app_nil_l, run_snoc. unfold apply_call. simpl.
    unfold get_movies. rewrite add_rating_movies, add_rating_movie_ratings.
    unfold get_movie_ratings.
    rewrite (movie_never_passed_lookup _ _ Hpre). simpl.
    split; [done|]. eexists. split; [apply lookup_insert_eq|].
    split;
      [by rewrite map_size_insert_None, map_size_empty by apply lookup_empty|].
    split.
    + rewrite sum_values_insert_fresh by apply lookup_empty.
      rewrite values_empty. reflexivity.
    + intros k Hk. rewrite lookup_insert_ne by lia. apply lookup_empty.
  - rewrite block_S, app_assoc, run_snoc. unfold apply_call. simpl.
    unfold get_movies in *.
    rewrite add_rating_movies, add_rating_movie_ratings.
    unfold get_movie_ratings. rewrite IHd. simpl.
    split; [exact IHm|]. eexists. split; [apply lookup_insert_eq|].
    assert (Hf : d !! Z.of_nat (S n) = None) by (apply IHfresh; lia).
    split; [by rewrite map_size_insert_None, IHsize|].
    split.
    + rewrite sum_values_insert_fresh by done. rewrite IHsum.
      unfold Tie.vote. rewrite decide_False by lia. simpl value. lia.
    + intros k Hk. rewrite lookup_insert_ne by lia. apply IHfresh. lia.
Qed.

Lemma block_movie_never_passed mv n mid :
  mid ≠ Movie.get_id mv → movie_never_passed (Tie.block mv n) mid.
Proof.
  intros Hne. unfold movie_never_passed, Tie.block.
  rewrite Forall_fmap. apply Forall_forall. intros i _. simpl. congruence.
Qed.

Lemma block_user_never_passed mv n uid :
  uid < 0 → user_never_passed (Tie.block mv n) uid.
Proof.
  intros Hneg. unfold user_never_passed, Tie.block.
  rewrite Forall_fmap. apply Forall_forall. intros i _. simpl. lia.
Qed.

Lemma get_average_rating_sum_size st m d :
  _movie_ratings st !! Movie.get_id m = Some d →
  get_average_rating st m
  = py_true_div (Zsum (value <$> values d)) (Z.of_nat (size d)).
Proof.
  intros Hd. unfold get_average_rating, py_sum. rewrite Hd.
  rewrite sum_from_total. cbn [rbind]. by rewrite Z.add_0_l, length_values.
Qed.

Lemma get_movie_ratings_some st m d :
  _movie_ratings st !! Movie.get_id m = Some d → get_movie_ratings st m = d.
Proof. intros H. unfold get_movie_ratings. by rewrite H. Qed.

Lemma cold_start_two_movies st user a b va vb :
  get_user_movies st user = [] →
  get_movies st = [a; b] →
  get_average_rating st a = Ok va →
  get_average_rating st b = Ok vb →
  Qgtb vb va = false →
  recommend_movie st user = Ok (PyMovie a).
Proof.
  intros Hu Hm Ha Hb Hq. unfold recommend_movie. rewrite Hu.
  unfold _recommend_for_new_user. rewrite Hm.
  cbn [py_max max_from rbind]. rewrite Ha. cbn [rbind]. rewrite Hb.
  cbn [rbind]. rewrite Hq. reflexivity.
Qed.

Lemma tie_history_state (n1 n2 : nat) :
  (0 < n1)%nat → (0 < n2)%nat →
  user_never_passed (Tie.history n1 n2) (User.get_id Tie.newcomer)
  ∧ get_movies (run (Tie.history n1 n2)) = [Tie.movie1; Tie.movie2]
  ∧ (∃ d, _movie_ratings (run (Tie.history n1 n2)) !! Movie.get_id Tie.movie1
          = Some d
          ∧ size d = n1 ∧ Zsum (value <$> values d) = 5 * Z.of_nat n1 - 1)
  ∧ (∃ d, _movie_ratings (run (Tie.history n1 n2)) !! Movie.get_id Tie.movie2
          = Some d
          ∧ size d = n2 ∧ Zsum (value <$> values d) = 5 * Z.of_nat n2 - 1).
Proof.
  intros H1 H2. unfold Tie.history.
  assert (Hnp : movie_never_passed (Tie.block Tie.movie1 n1)
                  (Movie.get_id Tie.movie2))
    by (by apply block_movie_never_passed).
  destruct (block_state [] Tie.movie1 n1) as (Hm1 & d1 & Hd1 & Hs1 & Hz1 & _);
    [by apply Forall_nil | done |].
  rewrite app_nil_l in Hm1, Hd1.
  destruct (block_state (Tie.block Tie.movie1 n1) Tie.movie2 n2)
    as (Hm2 & d2 & Hd2 & Hs2 & Hz2 & _); [done | done |].
  split; [|split; [|split]].
  - apply Forall_app. split; by apply block_user_never_passed.
  - rewrite Hm2, Hm1. reflexivity.
  - exists d1. rewrite block_frame by done. done.
  - by exists d2.
Qed.

Example tie_quotients :
  py_true_div 335544319 67108864 = Ok (335544319 # 67108864)%Q
  ∧ py_true_div 335544324 67108865 = Ok (335544319 # 67108864)%Q.
Proof. split; vm_compute; reflexivity. Qed.

Lemma average_nearest st m :
  get_movie_ratings st m ≠ ∅ →
  b64_nearest (mean_of (get_movie_ratings st m)) (average st m).
Proof.
  unfold get_movie_ratings, average.
  destruct (_movie_ratings st !! Movie.get_id m) as [d|]; simpl; [|done].
  intros Hne. unfold mean_of. apply b64_round_div_nearest_quotient.
  - apply map_size_non_empty_iff in Hne. lia.
  - apply Zsum_values_bounds.
Qed.

(** ** Examples *)

Example demo_average_titanic :
  get_average_rating Demo.ratings Demo.movie2 = Ok (5 # 2)%Q.
Proof. vm_compute. reflexivity. Qed.

Example demo_similarity :
  _calculate_similarity Demo.ratings Demo.user1 Demo.user2 = Ok (Fin 1).
Proof. vm_compute. reflexivity. Qed.

(** Outside the reachable registers the division can fail. *)
Example average_of_empty_dictionary :
  get_average_rating (RatingRegister.mk ∅ {[1 := ∅]} [] []) Demo.movie1
  = Raise ZeroDivisionError.
Proof. vm_compute. reflexivity. Qed.

(** Two catalog movies with the same average: the one added first wins. *)
Example cold_start_tie :
  recommend_movie
    (run [Call Apart.user1 Apart.movie3 FOUR; Call Apart.user2 Apart.movie1 FOUR])
    Demo.user3
  = Ok (PyMovie Apart.movie3).
Proof. vm_compute. reflexivity. Qed.

(** A movie the reviewer marked [NOT_RATED] is never the best unwatched one. *)
Example unwatched_zero_not_selected :
  _find_unwatched_movie
    (run [Call Apart.user1 Apart.movie1 FIVE;
          Call Apart.user2 Apart.movie3 NOT_RATED])
    Apart.user1 Apart.user2
  = Ok None.
Proof. vm_compute. reflexivity. Qed.

(** Two [Movie] objects with equal fields are still two objects. *)
Example distinct_objects_not_shared :
  common_movies
    (run [Call Apart.user1 (Movie.mk 0 1 "Inception") FIVE;
          Call Apart.user2 (Movie.mk 7 1 "Inception") FOUR])
    Apart.user1 Apart.user2
  = ∅.
Proof. vm_compute. reflexivity. Qed.

(** With perfect agreement the most similar reviewer is passed over. *)
Example agree_no_recommendation :
  recommend_movie Agree.ratings Agree.user1 = Ok PyNone.
Proof. vm_compute. reflexivity. Qed.

(** ** The claims *)

(** C1 (evaluation at the input on which the code departs from the claim):
    Alice and Bob both rated Titanic, both with the value 3.  They share a
    rated movie and the sum of the absolute differences over the shared
    movies is 0, yet the score computed by [_calculate_similarity] is
    positive infinity: [sum(...) or float("inf")] replaces a zero sum, and
    not only an empty one, by infinity. *)
Theorem C1_equal_ratings_score_infinite :
  Agree.movie2 ∈ common_movies Agree.ratings Agree.user1 Agree.user2
  ∧ Zsum (rating_gap Agree.ratings Agree.user1 Agree.user2
            <$> elements (common_movies Agree.ratings Agree.user1 Agree.user2))
    = 0
  ∧ _calculate_similarity Agree.ratings Agree.user1 Agree.user2 = Ok Inf.
Proof.
  split; [|split].
  - apply elem_of_common_movies. split; vm_compute.
    + left.
    + left.
  - vm_compute. reflexivity.
  - vm_compute. reflexivity.
Qed.

(** C2 (evaluation at the input on which the code departs from the claim):
    in the worked example the cold-start path taken for Charlie returns the
    [Movie] object of Inception itself, as [max] hands it back, and not the
    title string "Inception". *)
Theorem C2_cold_start_returns_movie_object :
  recommend_movie Demo.ratings Demo.user3 = Ok (PyMovie Demo.movie1)
  ∧ recommend_movie Demo.ratings Demo.user3 ≠ Ok (PyStr "Inception").
Proof.
  assert (H : recommend_movie Demo.ratings Demo.user3
              = Ok (PyMovie Demo.movie1)) by (vm_compute; reflexivity).
  split; [exact H|]. rewrite H. discriminate.
Qed.

(** C3: in the worked example (Alice rates Inception 5 and Titanic 2, then
    Bob rates Titanic 3 and The Matrix 4) the recommendation for Alice is
    "The Matrix" and the recommendation for Bob is "Inception". *)
Theorem C3_worked_example :
  recommend_movie Demo.ratings Demo.user1 = Ok (PyStr "The Matrix")
  ∧ recommend_movie Demo.ratings Demo.user2 = Ok (PyStr "Inception").
Proof. split; vm_compute; reflexivity. Qed.

(** C4, as stated, fails: 2^26 viewers rate a first movie and 2^26 + 1
    viewers rate a second one, one FOUR and FIVE otherwise on each.  The
    mean of the second movie, 335544324 / 67108865, is strictly higher
    than the mean of the first, 335544319 / 67108864, but both quotients
    are the same binary64 number, so for a user no call was made for
    [recommend_movie] returns the first movie. *)
Lemma C4_higher_mean_not_selected :
  user_never_passed Tie.calls (User.get_id Tie.newcomer)
  ∧ get_movies (run Tie.calls) = [Tie.movie1; Tie.movie2]
  ∧ recommend_movie (run Tie.calls) Tie.newcomer = Ok (PyMovie Tie.movie1)
  ∧ (mean_of (get_movie_ratings (run Tie.calls) Tie.movie1)
     < mean_of (get_movie_ratings (run Tie.calls) Tie.movie2))%Q.
Proof.
  unfold Tie.calls.
  generalize (Z2Nat.id 67108864 ltac:(lia)) (Z2Nat.id 67108865 ltac:(lia)).
  generalize (Z.to_nat 67108864) (Z.to_nat 67108865). intros n1 n2 E1 E2.
  destruct (tie_history_state n1 n2)
    as (Hu & Hm & (d1 & Hd1 & Hs1 & Hz1) & (d2 & Hd2 & Hs2 & Hz2)); [lia..|].
  rewrite E1 in Hz1. rewrite E2 in Hz2.
  change (5 * 67108864 - 1) with 335544319 in Hz1.
  change (5 * 67108865 - 1) with 335544324 in Hz2.
  destruct tie_quotients as [Q1 Q2].
  split; [exact Hu|]. split; [exact Hm|]. split.
  - apply cold_start_two_movies
      with (b := Tie.movie2) (va := (335544319 # 67108864)%Q)
           (vb := (335544319 # 67108864)%Q).
    + by apply never_passed_no_movies.
    + exact Hm.
    + rewrite (get_average_rating_sum_size _ Tie.movie1 _ Hd1), Hz1, Hs1, E1. exact Q1.
    + rewrite (get_average_rating_sum_size _ Tie.movie2 _ Hd2), Hz2, Hs2, E2. exact Q2.
    + vm_compute. reflexivity.
  - rewrite (get_movie_ratings_some _ Tie.movie1 _ Hd1).
    rewrite (get_movie_ratings_some _ Tie.movie2 _ Hd2).
    unfold mean_of. rewrite Hz1, Hz2, Hs1, Hs2, E1, E2.
    vm_compute. reflexivity.
Qed.

(** C4, amended: for a user who has rated no movie, in particular one no
    call of the history was made for, [recommend_movie] takes the
    cold-start path: on an empty catalog it returns [None]; otherwise it
    returns the first movie, in catalog order, whose average rating is
    maximal (every earlier movie has a strictly smaller average, every
    later one an average that is not greater).  The averages compared are
    the numbers [get_average_rating] returns: for a rated movie the
    binary64 number nearest to the arithmetic mean of its ratings, so that
    two movies tie when their means are rounded to the same number. *)
Theorem C4_cold_start_first_max (calls : list call) (user : User.t) :
  user_never_passed calls (User.get_id user)
  ∨ get_user_movies (run calls) user = [] →
  recommend_movie (run calls) user = _recommend_for_new_user (run calls)
  ∧ (∀ m, get_average_rating (run calls) m = Ok (average (run calls) m))
  ∧ (∀ m, get_movie_ratings (run calls) m ≠ ∅ →
          b64_nearest (mean_of (get_movie_ratings (run calls) m))
                      (average (run calls) m))
  ∧ match get_movies (run calls) with
    | [] => recommend_movie (run calls) user = Ok PyNone
    | _ :: _ =>
        ∃ m, recommend_movie (run calls) user = Ok (PyMovie m)
             ∧ first_max (average (run calls)) (get_movies (run calls)) m
    end.
Proof.
  intros H.
  assert (Hnone : get_user_movies (run calls) user = []).
  { destruct H as [H|H]; [by apply never_passed_no_movies | exact H]. }
  assert (Hpath : recommend_movie (run calls) user
                  = _recommend_for_new_user (run calls)).
  { unfold recommend_movie. by rewrite Hnone. }
  split; [exact Hpath|]. split; [apply get_average_rating_run|].
  split; [intros m; apply average_nearest|].
  rewrite Hpath. unfold _recommend_for_new_user.
  pose proof (py_max_first_max (get_average_rating (run calls))
                (average (run calls)) (get_average_rating_run calls)
                (get_movies (run calls))) as Hmax.
  destruct (get_movies (run calls)) as [|x rest].
  - by rewrite Hmax.
  - destruct Hmax as (m & -> & Hm). by exists m.
Qed.

Lemma C4_cold_start_first_max_witness :
  recommend_movie (run Demo.calls) Demo.user3
  = _recommend_for_new_user (run Demo.calls)
  ∧ (∀ m, get_average_rating (run Demo.calls) m
          = Ok (average (run Demo.calls) m))
  ∧ (∀ m, get_movie_ratings (run Demo.calls) m ≠ ∅ →
          b64_nearest (mean_of (get_movie_ratings (run Demo.calls) m))
                      (average (run Demo.calls) m))
  ∧ ∃ m, recommend_movie (run Demo.calls) Demo.user3 = Ok (PyMovie m)
         ∧ first_max (average (run Demo.calls))
             (get_movies (run Demo.calls)) m.
Proof.
  apply (C4_cold_start_first_max Demo.calls Demo.user3).
  right. vm_compute. reflexivity.
Defined.

(** C5: for a user who has rated at least one movie, if the score of every
    other known user is infinite, [recommend_movie] returns [None]: the
    running lowest score starts at infinity and is replaced only by a
    strictly smaller one, so no reviewer is ever selected. *)
Theorem C5_all_infinite_no_recommendation (st : RatingRegister.t)
    (user : User.t) :
  get_user_movies st user ≠ [] →
  (∀ r, r ∈ get_users st → User.get_id r ≠ User.get_id user →
        _calculate_similarity st user r = Ok Inf) →
  recommend_movie st user = Ok PyNone
  ∧ _recommend_for_existing_user_loop st user None Inf (get_users st)
    = Ok None.
Proof.
  intros Hrated Hall.
  assert (Hloop : _recommend_for_existing_user_loop st user None Inf
                    (get_users st) = Ok None)
    by (by apply existing_user_loop_all_infinite).
  split; [|exact Hloop].
  unfold recommend_movie. destruct (get_user_movies st user); [done|].
  unfold _recommend_for_existing_user. by rewrite Hloop.
Qed.

Lemma C5_all_infinite_no_recommendation_witness :
  recommend_movie Apart.ratings Apart.user1 = Ok PyNone
  ∧ _recommend_for_existing_user_loop Apart.ratings Apart.user1 None Inf
      (get_users Apart.ratings)
    = Ok None.
Proof.
  apply (C5_all_infinite_no_recommendation Apart.ratings Apart.user1).
  - vm_compute. discriminate.
  - intros r Hr Hne. vm_compute in Hr.
    apply elem_of_cons in Hr as [->|Hr].
    + exfalso. apply Hne. reflexivity.
    + apply list_elem_of_singleton in Hr as ->. vm_compute. reflexivity.
Defined.

(** C6: for every user and reviewer, [_find_unwatched_movie] returns without
    raising.  Its result, when it is a movie, occurs in the reviewer's movie
    sequence, is not among the movie objects the user rated, carries a
    reviewer rating above 0, and is the first of the reviewer's unwatched
    movies with the highest reviewer rating (strictly smaller ratings
    before it, none greater after it).  Its result is [None] exactly when
    every movie of the reviewer that the user has not rated has the
    reviewer rating 0. *)
Theorem C6_find_unwatched_movie_best (st : RatingRegister.t)
    (user reviewer : User.t) :
  ∃ res,
    _find_unwatched_movie st user reviewer = Ok res
    ∧ match res with
      | Some m =>
          ∃ pre post,
            get_user_movies st reviewer = pre ++ m :: post
            ∧ (m ∉ get_user_movies st user)
            ∧ 0 < reviewer_value st reviewer m
            ∧ (∀ x, x ∈ pre → x ∉ get_user_movies st user →
                    reviewer_value st reviewer x
                    < reviewer_value st reviewer m)
            ∧ (∀ x, x ∈ post → x ∉ get_user_movies st user →
                    reviewer_value st reviewer x
                    <= reviewer_value st reviewer m)
      | None => True
      end
    ∧ (res = None
       ↔ ∀ x, x ∈ get_user_movies st reviewer →
              x ∉ get_user_movies st user →
              reviewer_value st reviewer x = 0).
Proof.
  destruct (find_unwatched_movie_spec st user reviewer) as (res & Hres & Hspec).
  exists res. split; [exact Hres|].
  destruct res as [m|]; simpl in Hspec.
  - split; [exact Hspec|]. split; [discriminate|].
    intros Hzero. exfalso.
    destruct Hspec as (pre & post & Hl & Hun & Hpos & _).
    assert (Hm : m ∈ get_user_movies st reviewer).
    { rewrite Hl. apply elem_of_app. right. left. }
    specialize (Hzero m Hm Hun). lia.
  - split; [exact I|]. split; [|reflexivity].
    intros _ x Hx Hun. specialize (Hspec x Hx Hun).
    pose proof (value_nonneg
                  (default NOT_RATED
                     (get_movie_ratings st x !! User.get_id reviewer))) as H0.
    unfold reviewer_value in *. lia.
Qed.

(** C7, as stated, fails: after three users have rated one movie ONE,
    NOT_RATED and NOT_RATED, [get_average_rating] returns the binary64
    number 6004799503160661 / 2^54, while the arithmetic mean of the three
    recorded values is 1/3; the two numbers differ. *)
Lemma C7_mean_not_returned :
  get_average_rating (run Thirds.calls) Thirds.movie1
  = Ok (6004799503160661 # 18014398509481984)%Q
  ∧ (mean_of (get_movie_ratings (run Thirds.calls) Thirds.movie1) == 1 # 3)%Q
  ∧ ¬ (6004799503160661 # 18014398509481984
       == mean_of (get_movie_ratings (run Thirds.calls) Thirds.movie1))%Q.
Proof.
  split; [vm_compute; reflexivity|].
  split; [vm_compute; reflexivity|].
  vm_compute. discriminate.
Qed.

(** C7, amended: on every reachable register and for every movie, the
    dictionary of the movie holds, for each user id, the rating of the last
    call made for that user id and that movie id; when the dictionary is
    not empty [get_average_rating] returns the binary64 number nearest to
    the arithmetic mean of its values, the one with the even significand
    when the mean is half-way between two of them; when no call was made
    for the movie id it returns 0; it never raises. *)
Theorem C7_get_average_rating_nearest_mean (calls : list call) (m : Movie.t) :
  (∀ uid, get_movie_ratings (run calls) m !! uid
          = last_rating calls uid (Movie.get_id m))
  ∧ (get_movie_ratings (run calls) m ≠ ∅ →
     size (get_movie_ratings (run calls) m) ≠ 0%nat
     ∧ ∃ v, get_average_rating (run calls) m = Ok v
            ∧ b64_nearest (mean_of (get_movie_ratings (run calls) m)) v)
  ∧ (movie_never_passed calls (Movie.get_id m) →
     get_average_rating (run calls) m = Ok (inject_Z 0))
  ∧ ∃ q, get_average_rating (run calls) m = Ok q.
Proof.
  split; [intros uid; apply get_movie_ratings_run|].
  split; [|split].
  - intros Hne. split; [by apply map_size_non_empty_iff|].
    unfold get_movie_ratings in *.
    destruct (_movie_ratings (run calls) !! Movie.get_id m) as [d|] eqn:E;
      simpl in *; [|done].
    by apply get_average_rating_nearest.
  - intros H. apply get_average_rating_unrated.
    by apply movie_never_passed_lookup.
  - rewrite get_average_rating_run. by eexists.
Qed.

(** C8: from any register, after [add_rating(user, movie, r1)] followed by
    [add_rating(user, movie, r2)] the rating stored for the user in the
    movie's dictionary is [r2], and the user's movie sequence is the former
    one followed by the movie twice. *)
Theorem C8_add_rating_twice (st : RatingRegister.t) (user : User.t)
    (movie : Movie.t) (r1 r2 : MovieRating) :
  getitem (get_movie_ratings
             (add_rating (add_rating st user movie r1) user movie r2) movie)
          (User.get_id user)
  = Ok r2
  ∧ get_user_movies (add_rating (add_rating st user movie r1) user movie r2)
      user
    = get_user_movies st user ++ [movie; movie].
Proof.
  split.
  - rewrite get_movie_ratings_add_rating, decide_True by reflexivity.
    unfold getitem. by rewrite lookup_insert_eq.
  - rewrite !get_user_movies_add_rating, !decide_True by reflexivity.
    by rewrite <- app_assoc.
Qed.

(** C9: on every register reachable from the empty one by calls of
    [add_rating], a user id has an entry in the dictionary of a movie id
    exactly when the user's movie sequence holds a movie of that id; and
    [add_rating] preserves this property from any register that has it. *)
Theorem C9_bidirectional_consistency :
  (∀ calls, consistent (run calls))
  ∧ (∀ st user movie rating,
       consistent st → consistent (add_rating st user movie rating)).
Proof.
  split; [apply consistent_run|].
  intros st user movie rating. apply consistent_add_rating.
Qed.

(** C10: on every reachable register each dictionary stored in
    [_movie_ratings] is non-empty, so the length [get_average_rating]
    divides by is never 0 and the function returns a number for every
    movie. *)
Theorem C10_average_never_divides_by_zero (calls : list call) :
  ratings_nonempty (run calls)
  ∧ (∀ mid d, _movie_ratings (run calls) !! mid = Some d →
              length (values d) ≠ 0%nat)
  ∧ (∀ m, ∃ q, get_average_rating (run calls) m = Ok q)
  ∧ (∀ m, get_average_rating (run calls) m ≠ Raise ZeroDivisionError).
Proof.
  pose proof (ratings_nonempty_run calls) as Hinv.
  split; [exact Hinv|]. split; [|split].
  - intros mid d Hd. rewrite length_values.
    apply map_size_non_empty_iff. by apply (Hinv mid).
  - intros m. rewrite get_average_rating_run. by eexists.
  - intros m. rewrite get_average_rating_run. discriminate.
Qed.


(** * Further properties of the register and the recommender *)

(** ** The catalog and the user list *)

Lemma catalog_ok_add_rating st u m r :
  catalog_ok st → catalog_ok (add_rating st u m r).
Proof.
  intros [Hnd Hkeys]. unfold catalog_ok, get_movies.
  rewrite add_rating_movies, add_rating_movie_ratings.
  destruct (_movie_ratings st !! Movie.get_id m) as [d|] eqn:E.
  - split; [exact Hnd|]. intros mid. rewrite lookup_insert.
    destruct (decide (Movie.get_id m = mid)) as [<-|Hne]; [|apply Hkeys].
    split; [intros _; apply Hkeys; by rewrite E | by eexists].
  - assert (Hfresh : Movie.get_id m ∉ Movie.get_id <$> _movies st).
    { intros Hin. apply Hkeys in Hin. rewrite E in Hin. by destruct Hin. }
    rewrite fmap_app. split.
    + apply NoDup_app. split; [exact Hnd|]. split; [|apply NoDup_singleton].
      intros x Hx Hx'. apply list_elem_of_singleton in Hx'. by subst.
    + intros mid. rewrite lookup_insert, elem_of_app.
      destruct (decide (Movie.get_id m = mid)) as [<-|Hne].
      * split; [intros _; right; left | by eexists].
      * rewrite (Hkeys mid). split; [by left|].
        intros [H|H]; [done|]. apply list_elem_of_singleton in H. by subst.
Qed.

Lemma users_ok_add_rating st u m r :
  users_ok st → users_ok (add_rating st u m r).
Proof.
  intros [Hnd Hkeys]. unfold users_ok, get_users.
  rewrite add_rating_users, add_rating_user_movies.
  destruct (_user_movies st !! User.get_id u) as [ms|] eqn:E.
  - split; [exact Hnd|]. intros uid. rewrite lookup_insert.
    destruct (decide (User.get_id u = uid)) as [<-|Hne]; [|apply Hkeys].
    split; [intros _; apply Hkeys; by rewrite E | by eexists].
  - assert (Hfresh : User.get_id u ∉ User.get_id <$> _users st).
    { intros Hin. apply Hkeys in Hin. rewrite E in Hin. by destruct Hin. }
    rewrite fmap_app. split.
    + apply NoDup_app. split; [exact Hnd|]. split; [|apply NoDup_singleton].
      intros x Hx Hx'. apply list_elem_of_singleton in Hx'. by subst.
    + intros uid. rewrite lookup_insert, elem_of_app.
      destruct (decide (User.get_id u = uid)) as [<-|Hne].
      * split; [intros _; right; left | by eexists].
      * rewrite (Hkeys uid). split; [by left|].
        intros [H|H]; [done|]. apply list_elem_of_singleton in H. by subst.
Qed.

Lemma catalog_ok_run calls : catalog_ok (run calls).
Proof.
  apply run_ind.
  - split; [apply NoDup_nil_2|]. intros mid. simpl. rewrite lookup_empty.
    split; [by intros [? ?] | intros H; by apply elem_of_nil in H].
  - intros st u m r. apply catalog_ok_add_rating.
Qed.

Lemma users_ok_run calls : users_ok (run calls).
Proof.
  apply run_ind.
  - split; [apply NoDup_nil_2|]. intros uid. simpl. rewrite lookup_empty.
    split; [by intros [? ?] | intros H; by apply elem_of_nil in H].
  - intros st u m r. apply users_ok_add_rating.
Qed.

Lemma movie_key_iff_passed calls mid :
  is_Some (_movie_ratings (run calls) !! mid)
  ↔ ∃ c, c ∈ calls ∧ Movie.get_id (c_movie c) = mid.
Proof.
  induction calls as [|c calls IH] using rev_ind.
  - simpl. rewrite lookup_empty. split; [by intros [? ?]|].
    intros (c & Hc & _). by apply elem_of_nil in Hc.
  - rewrite run_snoc. unfold apply_call.
    rewrite add_rating_movie_ratings, lookup_insert.
    destruct (decide (Movie.get_id (c_movie c) = mid)) as [Heq|Hne].
    + split; [|by eexists]. intros _. exists c. split; [|done].
      apply elem_of_app. right. left.
    + rewrite IH. split.
      * intros (c' & Hc' & Hid). exists c'. split; [|done].
        apply elem_of_app. by left.
      * intros (c' & Hc' & Hid). apply elem_of_app in Hc' as [Hc'|Hc'].
        -- by exists c'.
        -- apply list_elem_of_singleton in Hc'. by subst.
Qed.

Lemma user_key_iff_passed calls uid :
  is_Some (_user_movies (run calls) !! uid)
  ↔ ∃ c, c ∈ calls ∧ User.get_id (c_user c) = uid.
Proof.
  induction calls as [|c calls IH] using rev_ind.
  - simpl. rewrite lookup_empty. split; [by intros [? ?]|].
    intros (c & Hc & _). by apply elem_of_nil in Hc.
  - rewrite run_snoc. unfold apply_call.
    rewrite add_rating_user_movies, lookup_insert.
    destruct (decide (User.get_id (c_user c) = uid)) as [Heq|Hne].
    + split; [|by eexists]. intros _. exists c. split; [|done].
      apply elem_of_app. right. left.
    + rewrite IH. split.
      * intros (c' & Hc' & Hid). exists c'. split; [|done].
        apply elem_of_app. by left.
      * intros (c' & Hc' & Hid). apply elem_of_app in Hc' as [Hc'|Hc'].
        -- by exists c'.
        -- apply list_elem_of_singleton in Hc'. by subst.
Qed.

Lemma catalog_movie_passed calls m :
  m ∈ get_movies (run calls) → ∃ c, c ∈ calls ∧ c_movie c = m.
Proof.
  induction calls as [|c calls IH] using rev_ind.
  - intros H. by apply elem_of_nil in H.
  - rewrite run_snoc. unfold apply_call, get_movies.
    rewrite add_rating_movies. intros H.
    assert (Hcases : m ∈ _movies (run calls) ∨ m = c_movie c).
    { destruct (_movie_ratings (run calls) !! Movie.get_id (c_movie c));
        [by left|].
      apply elem_of_app in H as [H|H]; [by left|].
      apply list_elem_of_singleton in H. by right. }
    destruct Hcases as [Hold| ->].
    + destruct (IH Hold) as (c' & Hc' & Hm). exists c'. split; [|done].
      apply elem_of_app. by left.
    + exists c. split; [|done]. apply elem_of_app. right. left.
Qed.

Lemma known_user_passed calls u :
  u ∈ get_users (run calls) → ∃ c, c ∈ calls ∧ c_user c = u.
Proof.
  induction calls as [|c calls IH] using rev_ind.
  - intros H. by apply elem_of_nil in H.
  - rewrite run_snoc. unfold apply_call, get_users.
    rewrite add_rating_users. intros H.
    assert (Hcases : u ∈ _users (run calls) ∨ u = c_user c).
    { destruct (_user_movies (run calls) !! User.get_id (c_user c));
        [by left|].
      apply elem_of_app in H as [H|H]; [by left|].
      apply list_elem_of_singleton in H. by right. }
    destruct Hcases as [Hold| ->].
    + destruct (IH Hold) as (c' & Hc' & Hm). exists c'. split; [|done].
      apply elem_of_app. by left.
    + exists c. split; [|done]. apply elem_of_app. right. left.
Qed.

(** X1: on every reachable register the catalog returned by [get_movies]
    holds no movie id twice, its ids are exactly the movie ids passed to
    [add_rating], and each of its movies is the movie object of some
    call. *)
Theorem X1_catalog_one_movie_per_id (calls : list call) :
  NoDup (Movie.get_id <$> get_movies (run calls))
  ∧ (∀ mid, mid ∈ Movie.get_id <$> get_movies (run calls)
            ↔ ∃ c, c ∈ calls ∧ Movie.get_id (c_movie c) = mid)
  ∧ (∀ m, m ∈ get_movies (run calls) → ∃ c, c ∈ calls ∧ c_movie c = m).
Proof.
  destruct (catalog_ok_run calls) as [Hnd Hkeys].
  split; [exact Hnd|]. split; [|apply catalog_movie_passed].
  intros mid. rewrite <- Hkeys. apply movie_key_iff_passed.
Qed.

(** X2: on every reachable register the list returned by [get_users] holds
    no user id twice, its ids are exactly the user ids passed to
    [add_rating], and each of its users is the user object of some call. *)
Theorem X2_users_one_user_per_id (calls : list call) :
  NoDup (User.get_id <$> get_users (run calls))
  ∧ (∀ uid, uid ∈ User.get_id <$> get_users (run calls)
            ↔ ∃ c, c ∈ calls ∧ User.get_id (c_user c) = uid)
  ∧ (∀ u, u ∈ get_users (run calls) → ∃ c, c ∈ calls ∧ c_user c = u).
Proof.
  destruct (users_ok_run calls) as [Hnd Hkeys].
  split; [exact Hnd|]. split; [|apply known_user_passed].
  intros uid. rewrite <- Hkeys. apply user_key_iff_passed.
Qed.

(** ** Histories and the two indexes *)

Lemma get_user_movies_run calls u :
  get_user_movies (run calls) u
  = c_movie <$> calls_of_user calls (User.get_id u).
Proof.
  unfold calls_of_user.
  induction calls as [|c calls IH] using rev_ind; [reflexivity|].
  rewrite run_snoc, filter_app, fmap_app. unfold apply_call.
  rewrite get_user_movies_add_rating.
  destruct (decide (User.get_id (c_user c) = User.get_id u)) as [Heq|Hne].
  - rewrite filter_cons_True by done. simpl. rewrite <- IH.
    unfold get_user_movies. by rewrite Heq.
  - rewrite filter_cons_False by done. simpl. by rewrite app_nil_r.
Qed.

Lemma dom_get_movie_ratings_run calls m :
  dom (get_movie_ratings (run calls) m)
  = list_to_set (User.get_id ∘ c_user
                   <$> calls_of_movie calls (Movie.get_id m)).
Proof.
  unfold calls_of_movie.
  induction calls as [|c calls IH] using rev_ind.
  - unfold get_movie_ratings. simpl. rewrite lookup_empty. simpl.
    apply dom_empty_L.
  - rewrite run_snoc, filter_app, fmap_app, list_to_set_app_L.
    unfold apply_call. rewrite get_movie_ratings_add_rating.
    destruct (decide (Movie.get_id (c_movie c) = Movie.get_id m)) as [Heq|Hne].
    + rewrite filter_cons_True by done. rewrite dom_insert_L, <- IH.
      unfold get_movie_ratings. rewrite Heq. simpl.
      rewrite union_empty_r_L. apply union_comm_L.
    + rewrite filter_cons_False by done. rewrite IH. simpl.
      by rewrite union_empty_r_L.
Qed.

(** X3: the movies [get_user_movies] returns for a user are the movies of
    the calls made with that user id, one per call and in call order;
    in particular the length of the list is the number of those calls. *)
Theorem X3_user_movies_are_call_history (calls : list call) (u : User.t) :
  get_user_movies (run calls) u
  = c_movie <$> calls_of_user calls (User.get_id u)
  ∧ length (get_user_movies (run calls) u)
    = length (calls_of_user calls (User.get_id u)).
Proof.
  rewrite get_user_movies_run. split; [reflexivity|]. apply length_fmap.
Qed.

(** X4: the user ids with an entry in a movie's dictionary are exactly the
    user ids of the calls made for that movie id, so the number of ratings
    [get_average_rating] divides by is the number of distinct user ids that
    rated the movie, however often each of them did. *)
Theorem X4_rating_count_is_distinct_users (calls : list call) (m : Movie.t) :
  dom (get_movie_ratings (run calls) m)
  = list_to_set (User.get_id ∘ c_user
                   <$> calls_of_movie calls (Movie.get_id m))
  ∧ length (values (get_movie_ratings (run calls) m))
    = size (list_to_set (C := gset Z)
              (User.get_id ∘ c_user
                 <$> calls_of_movie calls (Movie.get_id m))).
Proof.
  split; [apply dom_get_movie_ratings_run|].
  rewrite length_values, <- dom_get_movie_ratings_run. symmetry.
  apply size_dom.
Qed.

(** ** One call of [add_rating] *)

(** X5: from any register, [add_rating(user, movie, rating)] can be read
    back (the movie's dictionary maps the user id to [rating] and the movie
    is the last element of the user's list) and touches nothing else: the
    entry of every other pair of a user id and a movie id, the list of
    every other user id and the average of every other movie id are as
    before. *)
Theorem X5_add_rating_read_back_and_frame (st : RatingRegister.t)
    (u : User.t) (m : Movie.t) (r : MovieRating) :
  getitem (get_movie_ratings (add_rating st u m r) m) (User.get_id u) = Ok r
  ∧ last (get_user_movies (add_rating st u m r) u) = Some m
  ∧ (∀ u' m',
       User.get_id u' ≠ User.get_id u ∨ Movie.get_id m' ≠ Movie.get_id m →
       get_movie_ratings (add_rating st u m r) m' !! User.get_id u'
       = get_movie_ratings st m' !! User.get_id u')
  ∧ (∀ u', User.get_id u' ≠ User.get_id u →
           get_user_movies (add_rating st u m r) u' = get_user_movies st u')
  ∧ (∀ m', Movie.get_id m' ≠ Movie.get_id m →
           get_average_rating (add_rating st u m r) m'
           = get_average_rating st m').
Proof.
  split; [|split; [|split; [|split]]].
  - rewrite get_movie_ratings_add_rating, decide_True by reflexivity.
    unfold getitem. by rewrite lookup_insert_eq.
  - rewrite get_user_movies_add_rating, decide_True by reflexivity.
    apply last_snoc.
  - intros u' m' Hne. rewrite get_movie_ratings_add_rating.
    destruct (decide (Movie.get_id m = Movie.get_id m')) as [Heq|Hm].
    + rewrite lookup_insert_ne by (destruct Hne; congruence).
      unfold get_movie_ratings. by rewrite Heq.
    + reflexivity.
  - intros u' Hne. rewrite get_user_movies_add_rating.
    by rewrite decide_False by congruence.
  - intros m' Hne. unfold get_average_rating.
    rewrite add_rating_movie_ratings.
    by rewrite lookup_insert_ne by congruence.
Qed.

Lemma add_rating_grows st u m r :
  get_movies st `prefix_of` get_movies (add_rating st u m r)
  ∧ get_users st `prefix_of` get_users (add_rating st u m r)
  ∧ ∀ u', get_user_movies st u'
          `prefix_of` get_user_movies (add_rating st u m r) u'.
Proof.
  unfold get_movies, get_users. rewrite add_rating_movies, add_rating_users.
  split; [|split].
  - destruct (_movie_ratings st !! Movie.get_id m);
      [reflexivity | by apply prefix_app_r].
  - destruct (_user_movies st !! User.get_id u);
      [reflexivity | by apply prefix_app_r].
  - intros u'. rewrite get_user_movies_add_rating.
    destruct (decide (User.get_id u = User.get_id u')) as [Heq|Hne];
      [|reflexivity].
    unfold get_user_movies. rewrite Heq. by apply prefix_app_r.
Qed.

(** X6: further calls only extend what the register returns: the catalog,
    the user list and every user's movie list after a history are prefixes
    of what they are after any longer history, so elements already returned
    keep their position. *)
Theorem X6_queries_only_grow (calls more : list call) :
  get_movies (run calls) `prefix_of` get_movies (run (calls ++ more))
  ∧ get_users (run calls) `prefix_of` get_users (run (calls ++ more))
  ∧ ∀ u, get_user_movies (run calls) u
         `prefix_of` get_user_movies (run (calls ++ more)) u.
Proof.
  induction more as [|c more IH] using rev_ind.
  - rewrite app_nil_r. done.
  - rewrite app_assoc, run_snoc. unfold apply_call.
    destruct IH as (IH1 & IH2 & IH3).
    destruct (add_rating_grows (run (calls ++ more)) (c_user c) (c_movie c)
                (c_rating c)) as (G1 & G2 & G3).
    split; [by etrans|]. split; [by etrans|].
    intros u. etrans; [apply IH3 | apply G3].
Qed.

(** ** The sum and the number of a movie's ratings *)

(** X7: from any register, a call [add_rating(user, movie, rating)] changes
    the sum of the movie's stored values by replacing the user's former
    value (0 when the user had no entry) with the new one; the number of
    stored ratings grows by one when the user had no entry and is unchanged
    on an overwrite. *)
Theorem X7_add_rating_updates_sum_and_count (st : RatingRegister.t)
    (u : User.t) (m : Movie.t) (r : MovieRating) :
  sum_values (add_rating st u m r) m
  = sum_values st m - reviewer_value st u m + value r
  ∧ length (values (get_movie_ratings (add_rating st u m r) m))
    = match get_movie_ratings st m !! User.get_id u with
      | Some _ => length (values (get_movie_ratings st m))
      | None => S (length (values (get_movie_ratings st m)))
      end.
Proof.
  unfold sum_values, reviewer_value.
  rewrite get_movie_ratings_add_rating, decide_True by reflexivity.
  split; [apply sum_values_insert|].
  rewrite !length_values.
  destruct (get_movie_ratings st m !! User.get_id u) eqn:E.
  - by apply map_size_insert_Some.
  - by apply map_size_insert_None.
Qed.

(** ** Bounds on the average *)

(** X8: whenever [get_average_rating] returns a number, on any register,
    that number lies between 0 and 5. *)
Theorem X8_average_between_0_and_5 (st : RatingRegister.t) (m : Movie.t)
    (q : Q) :
  get_average_rating st m = Ok q →
  (inject_Z 0 <= q)%Q ∧ (q <= inject_Z 5)%Q.
Proof.
  unfold get_average_rating, py_sum.
  destruct (_movie_ratings st !! Movie.get_id m) as [d|].
  - rewrite sum_from_total. cbn [rbind]. rewrite Z.add_0_l.
    pose proof (Zsum_values_bounds (values d)) as Hs.
    destruct (decide (length (values d) = 0%nat)) as [Hlen|Hlen].
    + rewrite Hlen. unfold py_true_div. by rewrite decide_True.
    + rewrite py_true_div_ratings by lia. intros [= <-].
      apply b64_round_div_bounds; lia.
  - intros [= <-]. split; rewrite <- Zle_Qle; simpl; lia.
Qed.

Lemma X8_average_between_0_and_5_witness :
  (inject_Z 0 <= 5 # 2)%Q ∧ (5 # 2 <= inject_Z 5)%Q.
Proof.
  apply (X8_average_between_0_and_5 Demo.ratings Demo.movie2 (5 # 2)%Q).
  vm_compute. reflexivity.
Defined.

(** ** No exception on reachable registers *)

(** X9: on every reachable register neither [_calculate_similarity] nor
    [_find_unwatched_movie] nor [recommend_movie] raises, for any users,
    known or not: the subscripts [get_movie_ratings(movie)[user_id]] always
    find their key and no average divides by zero. *)
Theorem X9_recommender_never_raises (calls : list call) (u1 u2 : User.t) :
  (∃ s, _calculate_similarity (run calls) u1 u2 = Ok s)
  ∧ (∃ bm, _find_unwatched_movie (run calls) u1 u2 = Ok bm)
  ∧ (∃ v, recommend_movie (run calls) u1 = Ok v).
Proof.
  split; [|split].
  - rewrite calculate_similarity_consistent by apply consistent_run.
    by eexists.
  - destruct (find_unwatched_movie_spec (run calls) u1 u2) as (bm & H & _).
    by exists bm.
  - apply recommend_movie_total.
Qed.

(** On a register no history produces, the subscript can fail. *)
Example similarity_raises_on_broken_register :
  _calculate_similarity broken_register (User.mk 1 "Alice") (User.mk 2 "Bob")
  = Raise (KeyError 1)
  ∧ recommend_movie broken_register (User.mk 1 "Alice") = Raise (KeyError 1).
Proof. split; vm_compute; reflexivity. Qed.

(** ** The score *)

Lemma rating_gap_sym st u1 u2 m : rating_gap st u1 u2 m = rating_gap st u2 u1 m.
Proof. unfold rating_gap. lia. Qed.

Lemma common_movies_sym st u1 u2 : common_movies st u1 u2 = common_movies st u2 u1.
Proof. unfold common_movies. apply intersection_comm_L. Qed.

(** X10: on every reachable register the score of two users is computed
    from the sum of the absolute differences of their values over the movie
    objects both lists hold: it is that sum when the sum is not 0, and
    infinity when the sum is 0, in particular when no movie is shared. *)
Theorem X10_score_is_sum_or_infinity (calls : list call) (u1 u2 : User.t) :
  _calculate_similarity (run calls) u1 u2
  = Ok (if decide (Zsum (rating_gap (run calls) u1 u2
                           <$> elements (common_movies (run calls) u1 u2)) = 0)
        then Inf
        else Fin (Zsum (rating_gap (run calls) u1 u2
                          <$> elements (common_movies (run calls) u1 u2))))
  ∧ (common_movies (run calls) u1 u2 = ∅ →
     _calculate_similarity (run calls) u1 u2 = Ok Inf).
Proof.
  rewrite calculate_similarity_consistent by apply consistent_run.
  split; [reflexivity|]. intros ->. by rewrite elements_empty.
Qed.

(** X11: on every reachable register the score is symmetric in the two
    users. *)
Theorem X11_score_symmetric (calls : list call) (u1 u2 : User.t) :
  _calculate_similarity (run calls) u1 u2
  = _calculate_similarity (run calls) u2 u1.
Proof.
  rewrite !calculate_similarity_consistent by apply consistent_run.
  rewrite (common_movies_sym _ u2 u1). do 3 f_equal.
  apply list_fmap_ext. intros _ m _. apply rating_gap_sym.
Qed.

Lemma sum_from_lower_bound {A} (f : A -> result Z) (xs : list A) :
  (∀ x v, f x = Ok v → 0 <= v) →
  ∀ acc s, sum_from f acc xs = Ok s → acc <= s.
Proof.
  intros Hf. induction xs as [|x xs IH]; intros acc s; cbn [sum_from].
  - intros [= <-]. lia.
  - destruct (f x) as [v|e] eqn:E; cbn [rbind]; [|discriminate].
    intros H. apply IH in H. specialize (Hf x v E). lia.
Qed.

(** X12: on any register, a finite score returned by
    [_calculate_similarity] is strictly positive: the score 0 is never
    returned. *)
Theorem X12_finite_score_positive (st : RatingRegister.t) (u1 u2 : User.t)
    (z : Z) :
  _calculate_similarity st u1 u2 = Ok (Fin z) → 0 < z.
Proof.
  unfold _calculate_similarity, py_sum.
  destruct (sum_from _ 0 _) as [s|e] eqn:E; cbn [rbind]; [|discriminate].
  apply sum_from_lower_bound in E.
  - unfold or_inf. destruct (decide (s = 0)); [discriminate|].
    intros [= <-]. lia.
  - intros m v.
    destruct (getitem _ (User.get_id u1)); cbn [rbind]; [|discriminate].
    destruct (getitem _ (User.get_id u2)); cbn [rbind]; [|discriminate].
    intros [= <-]. lia.
Qed.

Lemma X12_finite_score_positive_witness : 0 < 1.
Proof.
  apply (X12_finite_score_positive Demo.ratings Demo.user1 Demo.user2 1).
  vm_compute. reflexivity.
Defined.

(** ** The choice of the reviewer *)

Lemma score_ltb_fin_l (a b : score) :
  score_ltb a b = true → ∃ z, a = Fin z.
Proof. destruct a as [z|]; [by exists z | discriminate]. Qed.

Lemma score_ltb_below (z' z : Z) (c : score) :
  z' < z → score_ltb (Fin z) c = true → score_ltb (Fin z') c = true.
Proof.
  intros Hlt. destruct c as [w|]; simpl; [|done].
  rewrite !bool_decide_eq_true. lia.
Qed.

Lemma score_ltb_not_below (z' z : Z) (c : score) :
  z' < z → score_ltb c (Fin z) = false → score_ltb (Fin z') c = true.
Proof.
  intros Hlt. destruct c as [w|]; simpl; [|done].
  rewrite bool_decide_eq_false, bool_decide_eq_true. lia.
Qed.

Section ReviewerLoop.
Variables (st : RatingRegister.t) (user : User.t).
Variables (s : User.t -> score) (g : User.t -> option Movie.t).
Hypothesis score_total : ∀ r, _calculate_similarity st user r = Ok (s r).
Hypothesis find_total : ∀ r, _find_unwatched_movie st user r = Ok (g r).

Lemma lowest_so_far_step l best lowest x :
  lowest_so_far s g l best lowest →
  if score_ltb (s x) lowest
  then lowest_so_far s g (l ++ [x]) (g x) (s x)
  else lowest_so_far s g (l ++ [x]) best lowest.
Proof.
  intros Hinv. destruct (score_ltb (s x) lowest) eqn:Hcmp.
  - destruct (score_ltb_fin_l _ _ Hcmp) as [z' Hz']. rewrite Hz' in *.
    exists l, x, []. split; [reflexivity|]. split; [exact Hz'|].
    split; [reflexivity|]. split; [|intros y Hy; by apply elem_of_nil in Hy].
    intros y Hy. destruct lowest as [z|]; simpl in Hinv.
    + apply bool_decide_eq_true in Hcmp.
      destruct Hinv as (pre & r & post & -> & Hr & _ & Hpre & Hpost).
      apply elem_of_app in Hy as [Hy|Hy];
        [by eapply score_ltb_below; [|apply Hpre]|].
      apply elem_of_cons in Hy as [->|Hy].
      * rewrite Hr. simpl. by apply bool_decide_eq_true.
      * by eapply score_ltb_not_below; [|apply Hpost].
    + destruct Hinv as [_ Hall]. by rewrite (Hall y Hy).
  - destruct lowest as [z|]; simpl in Hinv |- *.
    + destruct Hinv as (pre & r & post & -> & Hr & Hb & Hpre & Hpost).
      exists pre, r, (post ++ [x]). split; [by rewrite <- app_assoc|].
      repeat split; try done.
      intros y Hy. apply elem_of_app in Hy as [Hy|Hy]; [by apply Hpost|].
      by apply list_elem_of_singleton in Hy as ->.
    + destruct Hinv as [Hb Hall]. split; [exact Hb|].
      intros y Hy. apply elem_of_app in Hy as [Hy|Hy]; [by apply Hall|].
      apply list_elem_of_singleton in Hy as ->.
      destruct (s x); [discriminate | reflexivity].
Qed.

Lemma existing_user_loop_lowest (reviewers : list User.t) :
  ∀ seen best lowest,
    lowest_so_far s g
      (filter (fun r => User.get_id r ≠ User.get_id user) seen) best lowest →
    ∃ best' lowest',
      _recommend_for_existing_user_loop st user best lowest reviewers
      = Ok best'
      ∧ lowest_so_far s g
          (filter (fun r => User.get_id r ≠ User.get_id user)
                  (seen ++ reviewers))
          best' lowest'.
Proof.
  induction reviewers as [|x rest IH]; intros seen best lowest Hinv.
  - exists best, lowest. split; [reflexivity|]. by rewrite app_nil_r.
  - cbn [_recommend_for_existing_user_loop].
    replace (seen ++ x :: rest) with ((seen ++ [x]) ++ rest)
      by (by rewrite <- app_assoc).
    destruct (decide (User.get_id x = User.get_id user)) as [Heq|Hne].
    + apply IH. rewrite filter_app, filter_cons_False by (intros H; by apply H).
      by rewrite filter_nil, app_nil_r.
    + rewrite score_total. cbn [rbind].
      pose proof (lowest_so_far_step _ best lowest x Hinv) as Hstep.
      destruct (score_ltb (s x) lowest).
      * rewrite find_total. cbn [rbind]. apply IH.
        by rewrite filter_app, filter_cons_True, filter_nil by done.
      * apply IH.
        by rewrite filter_app, filter_cons_True, filter_nil by done.
Qed.

End ReviewerLoop.

(** The score and the best unwatched movie as functions of the reviewer. *)
Lemma score_function st user :
  consistent st →
  ∃ s, ∀ r, _calculate_similarity st user r = Ok (s r).
Proof.
  intros Hinv.
  exists (fun r => or_inf (Zsum (rating_gap st user r
                                   <$> elements (common_movies st user r)))).
  intros r. by apply calculate_similarity_consistent.
Qed.

Lemma best_unwatched_function st user :
  ∃ g, ∀ r, _find_unwatched_movie st user r = Ok (g r).
Proof.
  exists (fun r => match _find_unwatched_movie st user r with
                   | Ok bm => bm
                   | Raise _ => None
                   end).
  intros r. by destruct (find_unwatched_movie_spec st user r) as (bm & -> & _).
Qed.

(** X13: for a user with at least one rating on a reachable register,
    either every other known user has an infinite score and the
    recommendation is [None], or the recommendation is the title of the best
    unwatched movie ([None] if there is none) of the first reviewer, in
    [get_users] order and the user left out, whose score is the lowest:
    every reviewer before it has a strictly greater score and none after it
    has a smaller one. *)
Theorem X13_first_lowest_reviewer_decides (calls : list call) (user : User.t) :
  get_user_movies (run calls) user ≠ [] →
  (recommend_movie (run calls) user = Ok PyNone
   ∧ ∀ x, x ∈ other_users (run calls) user →
          _calculate_similarity (run calls) user x = Ok Inf)
  ∨ (∃ pre r post z bm,
       other_users (run calls) user = pre ++ r :: post
       ∧ _calculate_similarity (run calls) user r = Ok (Fin z)
       ∧ (∀ x, x ∈ pre →
               ∃ sx, _calculate_similarity (run calls) user x = Ok sx
                     ∧ score_ltb (Fin z) sx = true)
       ∧ (∀ x, x ∈ post →
               ∃ sx, _calculate_similarity (run calls) user x = Ok sx
                     ∧ score_ltb sx (Fin z) = false)
       ∧ _find_unwatched_movie (run calls) user r = Ok bm
       ∧ recommend_movie (run calls) user
         = Ok match bm with
              | Some m => PyStr (Movie.get_title m)
              | None => PyNone
              end).
Proof.
  intros Hrated.
  destruct (score_function (run calls) user (consistent_run calls)) as [s Hs].
  destruct (best_unwatched_function (run calls) user) as [g Hg].
  destruct (existing_user_loop_lowest (run calls) user s g Hs Hg
              (get_users (run calls)) [] None Inf)
    as (best & lowest & Hloop & Hinv).
  { split; [reflexivity|]. intros x Hx. by apply elem_of_nil in Hx. }
  assert (Hrec : recommend_movie (run calls) user
                 = Ok match best with
                      | Some m => PyStr (Movie.get_title m)
                      | None => PyNone
                      end).
  { unfold recommend_movie.
    destruct (get_user_movies (run calls) user); [done|].
    unfold _recommend_for_existing_user. by rewrite Hloop. }
  simpl in Hinv. fold (other_users (run calls) user) in Hinv.
  destruct lowest as [z|]; simpl in Hinv.
  - right. destruct Hinv as (pre & r & post & Hl & Hr & Hb & Hpre & Hpost).
    exists pre, r, post, z, (g r). split; [exact Hl|].
    split; [by rewrite Hs, Hr|].
    split; [intros x Hx; exists (s x); split; [apply Hs | by apply Hpre]|].
    split; [intros x Hx; exists (s x); split; [apply Hs | by apply Hpost]|].
    split; [apply Hg|]. by rewrite Hrec, Hb.
  - left. destruct Hinv as [-> Hall]. split; [exact Hrec|].
    intros x Hx. by rewrite Hs, (Hall x Hx).
Qed.

Lemma X13_first_lowest_reviewer_decides_witness :
  (recommend_movie (run Demo.calls) Demo.user1 = Ok PyNone
   ∧ ∀ x, x ∈ other_users (run Demo.calls) Demo.user1 →
          _calculate_similarity (run Demo.calls) Demo.user1 x = Ok Inf)
  ∨ (∃ pre r post z bm,
       other_users (run Demo.calls) Demo.user1 = pre ++ r :: post
       ∧ _calculate_similarity (run Demo.calls) Demo.user1 r = Ok (Fin z)
       ∧ (∀ x, x ∈ pre →
               ∃ sx, _calculate_similarity (run Demo.calls) Demo.user1 x
                     = Ok sx
                     ∧ score_ltb (Fin z) sx = true)
       ∧ (∀ x, x ∈ post →
               ∃ sx, _calculate_similarity (run Demo.calls) Demo.user1 x
                     = Ok sx
                     ∧ score_ltb sx (Fin z) = false)
       ∧ _find_unwatched_movie (run Demo.calls) Demo.user1 r = Ok bm
       ∧ recommend_movie (run Demo.calls) Demo.user1
         = Ok match bm with
              | Some m => PyStr (Movie.get_title m)
              | None => PyNone
              end).
Proof.
  apply (X13_first_lowest_reviewer_decides Demo.calls Demo.user1).
  vm_compute. discriminate.
Defined.

(** ** What a recommended title stands for *)

Lemma existing_user_loop_origin st user reviewers :
  ∀ best lowest res,
    _recommend_for_existing_user_loop st user best lowest reviewers = Ok res →
    res = best
    ∨ ∃ r, r ∈ reviewers ∧ User.get_id r ≠ User.get_id user
           ∧ _find_unwatched_movie st user r = Ok res.
Proof.
  induction reviewers as [|x rest IH]; intros best lowest res;
    cbn [_recommend_for_existing_user_loop].
  - intros [= <-]. by left.
  - assert (Hlater : ∀ b l,
              _recommend_for_existing_user_loop st user b l rest = Ok res →
              res = b
              ∨ ∃ r, r ∈ x :: rest ∧ User.get_id r ≠ User.get_id user
                     ∧ _find_unwatched_movie st user r = Ok res).
    { intros b l H. destruct (IH b l res H) as [->|(r & Hr & Hne & Hf)];
        [by left|]. right. exists r. split; [by right | done]. }
    destruct (decide (User.get_id x = User.get_id user)) as [Heq|Hne];
      [apply Hlater|].
    destruct (_calculate_similarity st user x) as [sc|e]; cbn [rbind];
      [|discriminate].
    destruct (score_ltb sc lowest); [|apply Hlater].
    destruct (_find_unwatched_movie st user x) as [bm|e] eqn:Hbm;
      cbn [rbind]; [|discriminate].
    intros H. destruct (Hlater bm sc H) as [->|Hex]; [|by right].
    right. exists x. split; [left | done].
Qed.

Lemma new_user_never_string st t : _recommend_for_new_user st ≠ Ok (PyStr t).
Proof.
  unfold _recommend_for_new_user.
  destruct (py_max _ _) as [[m|]|e]; cbn [rbind]; discriminate.
Qed.

(** X14: on any register, when [recommend_movie] returns a title, it is the
    title of a movie object that some known user with another id has in
    their list with a value above 0, and that the asking user's own list
    does not hold. *)
Theorem X14_recommended_title_is_unwatched (st : RatingRegister.t)
    (user : User.t) (t : string) :
  recommend_movie st user = Ok (PyStr t) →
  ∃ reviewer m,
    reviewer ∈ get_users st
    ∧ User.get_id reviewer ≠ User.get_id user
    ∧ m ∈ get_user_movies st reviewer
    ∧ (m ∉ get_user_movies st user)
    ∧ 0 < reviewer_value st reviewer m
    ∧ Movie.get_title m = t.
Proof.
  unfold recommend_movie.
  destruct (get_user_movies st user) as [|m0 ms] eqn:Hown.
  { intros H. by apply new_user_never_string in H. }
  unfold _recommend_for_existing_user.
  destruct (_recommend_for_existing_user_loop st user None Inf (get_users st))
    as [[m|]|e] eqn:Hloop; cbn [rbind]; [|discriminate..].
  intros [= <-].
  destruct (existing_user_loop_origin _ _ _ _ _ _ Hloop)
    as [|(r & Hr & Hne & Hfind)]; [discriminate|].
  destruct (find_unwatched_movie_spec st user r) as (res & Hres & Hspec).
  rewrite Hfind in Hres. injection Hres as <-. simpl in Hspec.
  destruct Hspec as (pre & post & Hl & Hun & Hpos & _).
  exists r, m. split; [exact Hr|]. split; [exact Hne|].
  split; [rewrite Hl; apply elem_of_app; right; left|].
  split; [by rewrite <- Hown|]. split; [exact Hpos | reflexivity].
Qed.

Lemma X14_recommended_title_is_unwatched_witness :
  ∃ reviewer m,
    reviewer ∈ get_users Demo.ratings
    ∧ User.get_id reviewer ≠ User.get_id Demo.user1
    ∧ m ∈ get_user_movies Demo.ratings reviewer
    ∧ (m ∉ get_user_movies Demo.ratings Demo.user1)
    ∧ 0 < reviewer_value Demo.ratings reviewer m
    ∧ Movie.get_title m = "The Matrix".
Proof.
  apply (X14_recommended_title_is_unwatched Demo.ratings Demo.user1).
  vm_compute. reflexivity.
Defined.

(** * Properties of the bank system *)

(** ** Subscripts and the choice of a teller *)

Lemma py_index_lt (len : nat) (i : Z) (n : nat) :
  py_index len i = Some n → (n < len)%nat.
Proof.
  unfold py_index. repeat case_decide; intros [= <-]; lia.
Qed.

Lemma py_index_nonneg (len : nat) (i : Z) (n : nat) :
  0 <= i → py_index len i = Some n → i = Z.of_nat n.
Proof.
  unfold py_index. repeat case_decide; intros Hi [= <-]; lia.
Qed.

Lemma get_available_teller_cases (rnd : nat) (w : BankBranch.world) :
  match BankBranch._tellers (BankBranch.self w) with
  | [] => BankBranch._get_available_teller rnd w = (Throw IndexError, w)
  | _ :: _ =>
      ∃ teller, teller ∈ BankBranch._tellers (BankBranch.self w)
                ∧ BankBranch._get_available_teller rnd w
                  = (Return (BankTeller.get_id teller), w)
  end.
Proof.
  unfold BankBranch._get_available_teller.
  destruct (BankBranch._tellers (BankBranch.self w)) as [|t ts] eqn:E.
  - by rewrite lookup_nil.
  - destruct (lookup_lt_is_Some_2 (t :: ts) (rnd mod length (t :: ts))%nat)
      as [teller Hteller].
    { apply Nat.mod_upper_bound. simpl. lia. }
    exists teller. rewrite Hteller. split; [|reflexivity].
    by eapply list_elem_of_lookup_2.
Qed.

(** ** The three operations of a branch *)

(** [BankBranch.open_account] raises [IndexError] and changes nothing
    when the branch has no teller.  Otherwise it returns the number of
    accounts the shared account manager held, appends an account with that
    customer id, the given name and the balance 0, logs one [OpenAccount]
    transaction carrying that id and the id of one of the branch's tellers,
    and leaves the branch itself unchanged. *)
Lemma open_account_cases (rnd : nat) (name : string)
    (w : BankBranch.world) :
  match BankBranch._tellers (BankBranch.self w) with
  | [] => BankBranch.open_account rnd name w = (Throw IndexError, w)
  | _ :: _ =>
      ∃ teller,
        teller ∈ BankBranch._tellers (BankBranch.self w)
        ∧ BankBranch.open_account rnd name w
          = (Return
               (Z.of_nat
                  (length (AccountManager._accounts
                             (BankBranch._account_manager w)))),
             BankBranch.World (BankBranch.self w)
               (AccountManager.mk
                  (AccountManager._accounts (BankBranch._account_manager w)
                   ++ [BankAccount.mk
                         (Z.of_nat
                            (length (AccountManager._accounts
                                       (BankBranch._account_manager w))))
                         name 0]))
               (TransactionManager.mk
                  (TransactionManager._transactions
                     (BankBranch._transaction_manager w)
                   ++ [OpenAccount
                         (Z.of_nat
                            (length (AccountManager._accounts
                                       (BankBranch._account_manager w))))
                         (BankTeller.get_id teller)])))
  end.
Proof.
  pose proof (get_available_teller_cases rnd w) as Ht.
  unfold BankBranch.open_account, sbind.
  destruct (BankBranch._tellers (BankBranch.self w)).
  - by rewrite Ht.
  - destruct Ht as (teller & Hin & ->). exists teller. split; [exact Hin|].
    reflexivity.
Qed.

Lemma account_manager_deposit_cases (cid amount : Z) (am : AccountManager.t) :
  match py_index (length (AccountManager._accounts am)) cid with
  | None => AccountManager.deposit cid amount am = (Throw IndexError, am)
  | Some n =>
      ∃ acc, AccountManager._accounts am !! n = Some acc
             ∧ AccountManager.deposit cid amount am
               = (Return tt,
                  AccountManager.mk
                    (<[n := BankAccount.mk (BankAccount._customer_id acc)
                              (BankAccount._name acc)
                              (BankAccount._balance acc + amount)]>
                       (AccountManager._accounts am)))
  end.
Proof.
  unfold AccountManager.deposit, AccountManager.get_account, sbind.
  destruct (py_index _ cid) as [n|] eqn:E; [|reflexivity].
  destruct (lookup_lt_is_Some_2 (AccountManager._accounts am) n)
    as [acc Hacc]; [by eapply py_index_lt|].
  exists acc. split; [exact Hacc|].
  unfold AccountManager.on_account. rewrite Hacc. reflexivity.
Qed.

Lemma account_manager_withdraw_cases (cid amount : Z) (am : AccountManager.t) :
  match py_index (length (AccountManager._accounts am)) cid with
  | None => AccountManager.withdraw cid amount am = (Throw IndexError, am)
  | Some n =>
      ∃ acc, AccountManager._accounts am !! n = Some acc
             ∧ AccountManager.withdraw cid amount am
               = if decide (amount > BankAccount._balance acc)
                 then (Throw (ValueError "Insufficient funds"), am)
                 else (Return tt,
                       AccountManager.mk
                         (<[n := BankAccount.mk (BankAccount._customer_id acc)
                                   (BankAccount._name acc)
                                   (BankAccount._balance acc - amount)]>
                            (AccountManager._accounts am)))
  end.
Proof.
  unfold AccountManager.withdraw, AccountManager.get_account, sbind.
  destruct (py_index _ cid) as [n|] eqn:E; [|reflexivity].
  destruct (lookup_lt_is_Some_2 (AccountManager._accounts am) n)
    as [acc Hacc]; [by eapply py_index_lt|].
  exists acc. split; [exact Hacc|].
  unfold AccountManager.on_account, BankAccount.withdraw. rewrite Hacc.
  destruct (decide (amount > BankAccount._balance acc)); [|reflexivity].
  rewrite list_insert_id by done. by destruct am.
Qed.

(** [BankBranch.deposit] raises [IndexError] and changes nothing when
    the branch has no teller or when the customer id is not a valid
    subscript of the account list (negative ids count from the end).
    Otherwise it adds the amount, whatever its sign, to the balance of the
    account the subscript denotes, logs one [Deposit] transaction with the
    customer id as passed, the id of one of the branch's tellers and the
    amount, and changes neither another account nor the branch: the cash on
    hand stays as it was. *)
Lemma deposit_cases (rnd : nat) (cid amount : Z)
    (w : BankBranch.world) :
  match BankBranch._tellers (BankBranch.self w),
        py_index (length (AccountManager._accounts
                            (BankBranch._account_manager w))) cid with
  | [], _ | _ :: _, None =>
      BankBranch.deposit rnd cid amount w = (Throw IndexError, w)
  | _ :: _, Some n =>
      ∃ teller acc,
        teller ∈ BankBranch._tellers (BankBranch.self w)
        ∧ AccountManager._accounts (BankBranch._account_manager w) !! n
          = Some acc
        ∧ BankBranch.deposit rnd cid amount w
          = (Return tt,
             BankBranch.World (BankBranch.self w)
               (AccountManager.mk
                  (<[n := BankAccount.mk (BankAccount._customer_id acc)
                            (BankAccount._name acc)
                            (BankAccount._balance acc + amount)]>
                     (AccountManager._accounts
                        (BankBranch._account_manager w))))
               (TransactionManager.mk
                  (TransactionManager._transactions
                     (BankBranch._transaction_manager w)
                   ++ [Deposit cid (BankTeller.get_id teller) amount])))
  end.
Proof.
  pose proof (get_available_teller_cases rnd w) as Ht.
  pose proof (account_manager_deposit_cases cid amount
                (BankBranch._account_manager w)) as Hd.
  unfold BankBranch.deposit, sbind.
  destruct (BankBranch._tellers (BankBranch.self w)).
  - rewrite Ht. by destruct (py_index _ cid).
  - destruct Ht as (teller & Hin & ->). unfold BankBranch.account_manager.
    destruct (py_index _ cid) as [n|].
    + destruct Hd as (acc & Hacc & ->). exists teller, acc.
      split; [exact Hin|]. split; [exact Hacc|]. reflexivity.
    + rewrite Hd. by destruct w.
Qed.

(** [BankBranch.withdraw] performs its checks in this order, and
    changes nothing when one of them fails: an amount above the cash on
    hand raises [ValueError("Branch does not have enough cash")]; a branch
    without teller raises [IndexError]; a customer id that is not a valid
    subscript raises [IndexError]; an amount above the balance of the account
    raises [ValueError("Insufficient funds")].  Otherwise the balance of
    the account and the cash on hand of the branch both decrease by the
    amount and stay non-negative, and one [Withdrawal] transaction is
    logged. *)
Lemma withdraw_cases (rnd : nat) (cid amount : Z)
    (w : BankBranch.world) :
  if decide (amount > BankBranch._cash_on_hand (BankBranch.self w))
  then BankBranch.withdraw rnd cid amount w
       = (Throw (ValueError "Branch does not have enough cash"), w)
  else
    match BankBranch._tellers (BankBranch.self w),
          py_index (length (AccountManager._accounts
                              (BankBranch._account_manager w))) cid with
    | [], _ | _ :: _, None =>
        BankBranch.withdraw rnd cid amount w = (Throw IndexError, w)
    | _ :: _, Some n =>
        ∃ teller acc,
          teller ∈ BankBranch._tellers (BankBranch.self w)
          ∧ AccountManager._accounts (BankBranch._account_manager w) !! n
            = Some acc
          ∧ if decide (amount > BankAccount._balance acc)
            then BankBranch.withdraw rnd cid amount w
                 = (Throw (ValueError "Insufficient funds"), w)
            else
              BankBranch.withdraw rnd cid amount w
              = (Return tt,
                 BankBranch.World
                   (BankBranch.mk
                      (BankBranch._address (BankBranch.self w))
                      (BankBranch._cash_on_hand (BankBranch.self w) - amount)
                      (BankBranch._tellers (BankBranch.self w)))
                   (AccountManager.mk
                      (<[n := BankAccount.mk (BankAccount._customer_id acc)
                                (BankAccount._name acc)
                                (BankAccount._balance acc - amount)]>
                         (AccountManager._accounts
                            (BankBranch._account_manager w))))
                   (TransactionManager.mk
                      (TransactionManager._transactions
                         (BankBranch._transaction_manager w)
                       ++ [Withdrawal cid (BankTeller.get_id teller) amount])))
              ∧ 0 <= BankAccount._balance acc - amount
              ∧ 0 <= BankBranch._cash_on_hand (BankBranch.self w) - amount
    end.
Proof.
  pose proof (get_available_teller_cases rnd w) as Ht.
  pose proof (account_manager_withdraw_cases cid amount
                (BankBranch._account_manager w)) as Hd.
  unfold BankBranch.withdraw, sthrow, sbind.
  destruct (decide (amount > BankBranch._cash_on_hand (BankBranch.self w)))
    as [Hcash|Hcash]; [reflexivity|].
  destruct (BankBranch._tellers (BankBranch.self w)) eqn:Hts.
  - rewrite Ht. by destruct (py_index _ cid).
  - destruct Ht as (teller & Hin & ->). unfold BankBranch.account_manager.
    destruct (py_index _ cid) as [n|].
    + destruct Hd as (acc & Hacc & ->). exists teller, acc.
      split; [exact Hin|]. split; [exact Hacc|].
      destruct (decide (amount > BankAccount._balance acc)) as [Hbal|Hbal].
      * by destruct w.
      * split; [|lia]. simpl. rewrite Hts. reflexivity.
    + rewrite Hd. by destruct w.
Qed.

(** ** Operations on a branch of a bank *)

Lemma on_branch_unchanged {A} (b : nat) (m : stateful BankBranch.world A)
    (bank : Bank.t) (branch : BankBranch.t) (o : outcome A) :
  Bank._branches bank !! b = Some branch →
  m (BankBranch.World branch (Bank._account_manager bank)
       (Bank._transaction_manager bank))
  = (o, BankBranch.World branch (Bank._account_manager bank)
          (Bank._transaction_manager bank)) →
  Bank.on_branch b m bank = Some (o, bank).
Proof.
  intros Hb Hm. unfold Bank.on_branch. rewrite Hb, Hm. simpl.
  rewrite list_insert_id by done. by destruct bank.
Qed.

(** X15: on a bank, [open_account] called on a branch without teller raises
    [IndexError] and leaves the whole bank unchanged.  Called on a branch
    with a teller it returns the number of accounts of the bank, appends
    to the accounts an account with that customer id, the given name and
    the balance 0, logs one [OpenAccount] transaction with that id and the
    id of one of the branch's tellers, and changes no branch. *)
Theorem X15_open_account_on_bank (bank : Bank.t) (b rnd : nat)
    (name : string) (branch : BankBranch.t) :
  Bank._branches bank !! b = Some branch →
  match BankBranch._tellers branch with
  | [] =>
      Bank.on_branch b (BankBranch.open_account rnd name) bank
      = Some (Throw IndexError, bank)
  | _ :: _ =>
      ∃ teller,
        teller ∈ BankBranch._tellers branch
        ∧ Bank.on_branch b (BankBranch.open_account rnd name) bank
          = Some (Return (Z.of_nat (length (accounts_of bank))),
                  Bank.mk (Bank._branches bank)
                    (AccountManager.mk
                       (accounts_of bank
                        ++ [BankAccount.mk
                              (Z.of_nat (length (accounts_of bank))) name 0]))
                    (TransactionManager.mk
                       (log_of bank
                        ++ [OpenAccount (Z.of_nat (length (accounts_of bank)))
                              (BankTeller.get_id teller)])))
  end.
Proof.
  intros Hb.
  pose proof (open_account_cases rnd name
                (BankBranch.World branch (Bank._account_manager bank)
                   (Bank._transaction_manager bank))) as H.
  simpl in H. destruct (BankBranch._tellers branch).
  - by apply (on_branch_unchanged b _ bank branch).
  - destruct H as (teller & Hin & H). exists teller. split; [exact Hin|].
    unfold Bank.on_branch. rewrite Hb, H. simpl.
    by rewrite list_insert_id by done.
Qed.

Lemma X15_open_account_on_bank_witness :
  ∃ teller,
    teller ∈ [BankTeller.mk 1; BankTeller.mk 2]
    ∧ Bank.on_branch 0 (BankBranch.open_account 5 "John Doe")
        (bank_run [AddBranch "123 Main St" 1000; AddTeller 0 1; AddTeller 0 2])
      = Some (Return 0,
              Bank.mk
                [BankBranch.mk "123 Main St" 1000
                   [BankTeller.mk 1; BankTeller.mk 2]]
                (AccountManager.mk [BankAccount.mk 0 "John Doe" 0])
                (TransactionManager.mk
                   [OpenAccount 0 (BankTeller.get_id teller)])).
Proof.
  apply (X15_open_account_on_bank
           (bank_run [AddBranch "123 Main St" 1000; AddTeller 0 1;
                      AddTeller 0 2])
           0 5 "John Doe"
           (BankBranch.mk "123 Main St" 1000
              [BankTeller.mk 1; BankTeller.mk 2])).
  vm_compute. reflexivity.
Defined.

(** X16: on a bank, [deposit] called on a branch raises [IndexError] and
    leaves the whole bank unchanged when the branch has no teller or the
    customer id is not a valid subscript of the bank's account list
    (negative ids count from the end).  Otherwise it adds the amount,
    whatever its sign, to the balance of the account the subscript denotes,
    logs one [Deposit] transaction with the customer id as passed, the id of
    one of the branch's tellers and the amount, and changes no branch: the
    cash on hand is not touched. *)
Theorem X16_deposit_on_bank (bank : Bank.t) (b rnd : nat) (cid amount : Z)
    (branch : BankBranch.t) :
  Bank._branches bank !! b = Some branch →
  match BankBranch._tellers branch,
        py_index (length (accounts_of bank)) cid with
  | [], _ | _ :: _, None =>
      Bank.on_branch b (BankBranch.deposit rnd cid amount) bank
      = Some (Throw IndexError, bank)
  | _ :: _, Some n =>
      ∃ teller acc,
        teller ∈ BankBranch._tellers branch
        ∧ accounts_of bank !! n = Some acc
        ∧ Bank.on_branch b (BankBranch.deposit rnd cid amount) bank
          = Some (Return tt,
                  Bank.mk (Bank._branches bank)
                    (AccountManager.mk
                       (<[n := BankAccount.mk (BankAccount._customer_id acc)
                                 (BankAccount._name acc)
                                 (BankAccount._balance acc + amount)]>
                          (accounts_of bank)))
                    (TransactionManager.mk
                       (log_of bank
                        ++ [Deposit cid (BankTeller.get_id teller) amount])))
  end.
Proof.
  intros Hb.
  pose proof (deposit_cases rnd cid amount
                (BankBranch.World branch (Bank._account_manager bank)
                   (Bank._transaction_manager bank))) as H.
  simpl in H. unfold accounts_of.
  destruct (BankBranch._tellers branch);
    [by apply (on_branch_unchanged b _ bank branch)|].
  destruct (py_index _ cid) as [n|]; [|by apply (on_branch_unchanged b _ bank branch)].
  destruct H as (teller & acc & Hin & Hacc & H). exists teller, acc.
  split; [exact Hin|]. split; [exact Hacc|].
  unfold Bank.on_branch. rewrite Hb, H. simpl.
  by rewrite list_insert_id by done.
Qed.

Lemma X16_deposit_on_bank_witness :
  ∃ teller acc,
    teller ∈ [BankTeller.mk 1]
    ∧ [BankAccount.mk 0 "John Doe" 0; BankAccount.mk 1 "Bob Smith" 0] !! 1%nat
      = Some acc
    ∧ Bank.on_branch 0 (BankBranch.deposit 7 (-1) 200)
        (bank_run [AddBranch "123 Main St" 1000; AddTeller 0 1;
                   Open 0 0 "John Doe"; Open 0 0 "Bob Smith"])
      = Some (Return tt,
              Bank.mk [BankBranch.mk "123 Main St" 1000 [BankTeller.mk 1]]
                (AccountManager.mk
                   (<[1%nat := BankAccount.mk (BankAccount._customer_id acc)
                                 (BankAccount._name acc)
                                 (BankAccount._balance acc + 200)]>
                      [BankAccount.mk 0 "John Doe" 0;
                       BankAccount.mk 1 "Bob Smith" 0]))
                (TransactionManager.mk
                   ([OpenAccount 0 1; OpenAccount 1 1]
                    ++ [Deposit (-1) (BankTeller.get_id teller) 200]))).
Proof.
  apply (X16_deposit_on_bank
           (bank_run [AddBranch "123 Main St" 1000; AddTeller 0 1;
                      Open 0 0 "John Doe"; Open 0 0 "Bob Smith"])
           0 7 (-1) 200
           (BankBranch.mk "123 Main St" 1000 [BankTeller.mk 1])).
  vm_compute. reflexivity.
Defined.

(** X17: on a bank, [withdraw] called on a branch performs its checks in
    this order and leaves the whole bank unchanged when one fails: an
    amount above the branch's cash on hand raises
    [ValueError("Branch does not have enough cash")]; a branch without
    teller raises [IndexError]; a customer id that is not a valid subscript
    raises [IndexError]; an amount above the balance of the account raises
    [ValueError("Insufficient funds")].  Otherwise the balance of the
    account and the cash on hand of that branch both decrease by the amount
    and are not negative afterwards, one [Withdrawal] transaction is logged,
    and nothing else changes. *)
Theorem X17_withdraw_on_bank (bank : Bank.t) (b rnd : nat) (cid amount : Z)
    (branch : BankBranch.t) :
  Bank._branches bank !! b = Some branch →
  if decide (amount > BankBranch._cash_on_hand branch)
  then Bank.on_branch b (BankBranch.withdraw rnd cid amount) bank
       = Some (Throw (ValueError "Branch does not have enough cash"), bank)
  else
    match BankBranch._tellers branch,
          py_index (length (accounts_of bank)) cid with
    | [], _ | _ :: _, None =>
        Bank.on_branch b (BankBranch.withdraw rnd cid amount) bank
        = Some (Throw IndexError, bank)
    | _ :: _, Some n =>
        ∃ teller acc,
          teller ∈ BankBranch._tellers branch
          ∧ accounts_of bank !! n = Some acc
          ∧ if decide (amount > BankAccount._balance acc)
            then Bank.on_branch b (BankBranch.withdraw rnd cid amount) bank
                 = Some (Throw (ValueError "Insufficient funds"), bank)
            else
              Bank.on_branch b (BankBranch.withdraw rnd cid amount) bank
              = Some (Return tt,
                      Bank.mk
                        (<[b := BankBranch.mk (BankBranch._address branch)
                                  (BankBranch._cash_on_hand branch - amount)
                                  (BankBranch._tellers branch)]>
                           (Bank._branches bank))
                        (AccountManager.mk
                           (<[n := BankAccount.mk
                                     (BankAccount._customer_id acc)
                                     (BankAccount._name acc)
                                     (BankAccount._balance acc - amount)]>
                              (accounts_of bank)))
                        (TransactionManager.mk
                           (log_of bank
                            ++ [Withdrawal cid (BankTeller.get_id teller)
                                  amount])))
              ∧ 0 <= BankAccount._balance acc - amount
              ∧ 0 <= BankBranch._cash_on_hand branch - amount
    end.
Proof.
  intros Hb.
  pose proof (withdraw_cases rnd cid amount
                (BankBranch.World branch (Bank._account_manager bank)
                   (Bank._transaction_manager bank))) as H.
  simpl in H. unfold accounts_of.
  destruct (decide (amount > BankBranch._cash_on_hand branch)) as [Hc|Hc];
    [by apply (on_branch_unchanged b _ bank branch)|].
  destruct (BankBranch._tellers branch) eqn:Hts;
    [by apply (on_branch_unchanged b _ bank branch)|].
  destruct (py_index _ cid) as [n|];
    [|by apply (on_branch_unchanged b _ bank branch)].
  destruct H as (teller & acc & Hin & Hacc & H). exists teller, acc.
  split; [exact Hin|]. split; [exact Hacc|].
  destruct (decide (amount > BankAccount._balance acc)) as [Hb'|Hb'];
    [by apply (on_branch_unchanged b _ bank branch)|].
  destruct H as (H & Hbal & Hcash). split; [|by split].
  unfold Bank.on_branch. rewrite Hb, H. reflexivity.
Qed.

Lemma X17_withdraw_on_bank_witness :
  ∃ teller acc,
    teller ∈ [BankTeller.mk 1]
    ∧ [BankAccount.mk 0 "John Doe" 100] !! 0%nat = Some acc
    ∧ if decide (50 > BankAccount._balance acc)
      then Bank.on_branch 0 (BankBranch.withdraw 3 0 50)
             (bank_run [AddBranch "123 Main St" 1000; AddTeller 0 1;
                        Open 0 0 "John Doe"; Dep 0 0 0 100])
           = Some (Throw (ValueError "Insufficient funds"),
                   bank_run [AddBranch "123 Main St" 1000; AddTeller 0 1;
                             Open 0 0 "John Doe"; Dep 0 0 0 100])
      else
      Bank.on_branch 0 (BankBranch.withdraw 3 0 50)
        (bank_run [AddBranch "123 Main St" 1000; AddTeller 0 1;
                   Open 0 0 "John Doe"; Dep 0 0 0 100])
      = Some (Return tt,
              Bank.mk
                (<[0%nat := BankBranch.mk "123 Main St" (1000 - 50)
                              [BankTeller.mk 1]]>
                   [BankBranch.mk "123 Main St" 1000 [BankTeller.mk 1]])
                (AccountManager.mk
                   (<[0%nat := BankAccount.mk (BankAccount._customer_id acc)
                                 (BankAccount._name acc)
                                 (BankAccount._balance acc - 50)]>
                      [BankAccount.mk 0 "John Doe" 100]))
                (TransactionManager.mk
                   ([OpenAccount 0 1; Deposit 0 1 100]
                    ++ [Withdrawal 0 (BankTeller.get_id teller) 50])))
    ∧ 0 <= BankAccount._balance acc - 50
    ∧ 0 <= 1000 - 50.
Proof.
  assert (Hb : Bank._branches
                 (bank_run [AddBranch "123 Main St" 1000; AddTeller 0 1;
                            Open 0 0 "John Doe"; Dep 0 0 0 100]) !! 0%nat
               = Some (BankBranch.mk "123 Main St" 1000 [BankTeller.mk 1]))
    by (vm_compute; reflexivity).
  exact (X17_withdraw_on_bank _ 0 3 0 50 _ Hb).
Defined.

(** ** One operation of a history *)

Lemma bank_run_snoc (ops : list bank_op) (o : bank_op) :
  bank_run (ops ++ [o]) = bank_step (bank_run ops) o.
Proof. unfold bank_run. by rewrite fold_left_app. Qed.

Lemma bank_step_on_branch {A} (b : nat) (m : stateful BankBranch.world A)
    (bank : Bank.t) :
  from_option snd bank (Bank.on_branch b m bank)
  = match Bank._branches bank !! b with
    | Some branch =>
        Bank.mk
          (<[b := BankBranch.self
                    (m (BankBranch.World branch (Bank._account_manager bank)
                          (Bank._transaction_manager bank))).2]>
             (Bank._branches bank))
          (BankBranch._account_manager
             (m (BankBranch.World branch (Bank._account_manager bank)
                   (Bank._transaction_manager bank))).2)
          (BankBranch._transaction_manager
             (m (BankBranch.World branch (Bank._account_manager bank)
                   (Bank._transaction_manager bank))).2)
    | None => bank
    end.
Proof.
  unfold Bank.on_branch. destruct (Bank._branches bank !! b); [|reflexivity].
  by destruct (m _).
Qed.

(** What one operation does to a bank. *)
Lemma bank_step_cases (bank : Bank.t) (o : bank_op) :
  bank_step bank o = bank
  ∨ (∃ address funds,
       o = AddBranch address funds
       ∧ bank_step bank o
         = Bank.mk (Bank._branches bank ++ [BankBranch.init address funds])
             (Bank._account_manager bank) (Bank._transaction_manager bank))
  ∨ (∃ b teller branch,
       o = AddTeller b teller
       ∧ Bank._branches bank !! b = Some branch
       ∧ bank_step bank o
         = Bank.mk
             (<[b := BankBranch.mk (BankBranch._address branch)
                       (BankBranch._cash_on_hand branch)
                       (BankBranch._tellers branch ++ [BankTeller.mk teller])]>
                (Bank._branches bank))
             (Bank._account_manager bank) (Bank._transaction_manager bank))
  ∨ (∃ b rnd name tid,
       o = Open b rnd name
       ∧ bank_step bank o
         = Bank.mk (Bank._branches bank)
             (AccountManager.mk
                (accounts_of bank
                 ++ [BankAccount.mk (Z.of_nat (length (accounts_of bank)))
                       name 0]))
             (TransactionManager.mk
                (log_of bank
                 ++ [OpenAccount (Z.of_nat (length (accounts_of bank))) tid])))
  ∨ (∃ b rnd cid amount n acc tid,
       o = Dep b rnd cid amount
       ∧ py_index (length (accounts_of bank)) cid = Some n
       ∧ accounts_of bank !! n = Some acc
       ∧ bank_step bank o
         = Bank.mk (Bank._branches bank)
             (AccountManager.mk
                (<[n := BankAccount.mk (BankAccount._customer_id acc)
                          (BankAccount._name acc)
                          (BankAccount._balance acc + amount)]>
                   (accounts_of bank)))
             (TransactionManager.mk (log_of bank ++ [Deposit cid tid amount])))
  ∨ (∃ b rnd cid amount n acc tid branch,
       o = Wd b rnd cid amount
       ∧ Bank._branches bank !! b = Some branch
       ∧ py_index (length (accounts_of bank)) cid = Some n
       ∧ accounts_of bank !! n = Some acc
       ∧ amount <= BankAccount._balance acc
       ∧ amount <= BankBranch._cash_on_hand branch
       ∧ bank_step bank o
         = Bank.mk
             (<[b := BankBranch.mk (BankBranch._address branch)
                       (BankBranch._cash_on_hand branch - amount)
                       (BankBranch._tellers branch)]>
                (Bank._branches bank))
             (AccountManager.mk
                (<[n := BankAccount.mk (BankAccount._customer_id acc)
                          (BankAccount._name acc)
                          (BankAccount._balance acc - amount)]>
                   (accounts_of bank)))
             (TransactionManager.mk
                (log_of bank ++ [Withdrawal cid tid amount]))).
Proof.
  assert (Hsame : ∀ branch b,
            Bank._branches bank !! b = Some branch →
            Bank.mk (<[b := branch]> (Bank._branches bank))
              (Bank._account_manager bank) (Bank._transaction_manager bank)
            = bank).
  { intros branch b Hb. rewrite list_insert_id by done. by destruct bank. }
  unfold accounts_of, log_of.
  destruct o as [address funds|b teller|b rnd name|b rnd cid amount
                 |b rnd cid amount]; cbn [bank_step].
  - right. left. by exists address, funds.
  - rewrite bank_step_on_branch.
    destruct (Bank._branches bank !! b) as [branch|] eqn:Hb; [|by left].
    right. right. left. by exists b, teller, branch.
  - rewrite bank_step_on_branch.
    destruct (Bank._branches bank !! b) as [branch|] eqn:Hb; [|by left].
    pose proof (open_account_cases rnd name
                  (BankBranch.World branch (Bank._account_manager bank)
                     (Bank._transaction_manager bank))) as H.
    simpl in H. destruct (BankBranch._tellers branch).
    + rewrite H. simpl. left. by apply Hsame.
    + destruct H as (teller & _ & ->). simpl.
      rewrite list_insert_id by done.
      do 3 right. left. by exists b, rnd, name, (BankTeller.get_id teller).
  - rewrite bank_step_on_branch.
    destruct (Bank._branches bank !! b) as [branch|] eqn:Hb; [|by left].
    pose proof (deposit_cases rnd cid amount
                  (BankBranch.World branch (Bank._account_manager bank)
                     (Bank._transaction_manager bank))) as H.
    simpl in H. destruct (BankBranch._tellers branch).
    { rewrite H. simpl. left. by apply Hsame. }
    destruct (py_index _ cid) as [n|] eqn:Hn;
      [|rewrite H; simpl; left; by apply Hsame].
    destruct H as (teller & acc & _ & Hacc & ->). simpl.
    rewrite list_insert_id by done.
    do 4 right. left.
    by exists b, rnd, cid, amount, n, acc, (BankTeller.get_id teller).
  - rewrite bank_step_on_branch.
    destruct (Bank._branches bank !! b) as [branch|] eqn:Hb; [|by left].
    pose proof (withdraw_cases rnd cid amount
                  (BankBranch.World branch (Bank._account_manager bank)
                     (Bank._transaction_manager bank))) as H.
    simpl in H.
    destruct (decide (amount > BankBranch._cash_on_hand branch)) as [Hc|Hc].
    { rewrite H. simpl. left. by apply Hsame. }
    destruct (BankBranch._tellers branch) eqn:Hts.
    { rewrite H. simpl. left. by apply Hsame. }
    destruct (py_index _ cid) as [n|] eqn:Hn;
      [|rewrite H; simpl; left; by apply Hsame].
    destruct H as (teller & acc & _ & Hacc & H).
    destruct (decide (amount > BankAccount._balance acc)) as [Hbal|Hbal].
    { rewrite H. simpl. left. by apply Hsame. }
    destruct H as (-> & _ & _). simpl.
    do 5 right.
    exists b, rnd, cid, amount, n, acc, (BankTeller.get_id teller), branch.
    split; [done|]. split; [done|]. split; [done|].
    split; [done|]. split; [lia|]. split; [lia|]. by rewrite Hts.
Qed.

(** ** Invariants of a bank *)

Lemma bank_run_ind (P : Bank.t -> Prop) :
  P Bank.init →
  (∀ bank o, P bank → P (bank_step bank o)) →
  ∀ ops, P (bank_run ops).
Proof.
  intros Hinit Hstep ops.
  induction ops as [|o ops IH] using rev_ind; [exact Hinit|].
  rewrite bank_run_snoc. apply Hstep, IH.
Qed.

Lemma customer_ids_insert (accounts : list BankAccount.t) n acc balance :
  accounts !! n = Some acc →
  BankAccount._customer_id
    <$> <[n := BankAccount.mk (BankAccount._customer_id acc)
                 (BankAccount._name acc) balance]> accounts
  = BankAccount._customer_id <$> accounts.
Proof.
  intros Hacc. rewrite list_fmap_insert. simpl.
  apply list_insert_id. by rewrite list_lookup_fmap, Hacc.
Qed.

Lemma names_insert (accounts : list BankAccount.t) n acc balance :
  accounts !! n = Some acc →
  BankAccount._name
    <$> <[n := BankAccount.mk (BankAccount._customer_id acc)
                 (BankAccount._name acc) balance]> accounts
  = BankAccount._name <$> accounts.
Proof.
  intros Hacc. rewrite list_fmap_insert. simpl.
  apply list_insert_id. by rewrite list_lookup_fmap, Hacc.
Qed.

Lemma opened_ids_snoc (log : list Transaction) (t : Transaction) :
  opened_ids (log ++ [t])
  = opened_ids log
    ++ match t with OpenAccount c _ => [c] | _ => [] end.
Proof. unfold opened_ids. rewrite omap_app. by destruct t. Qed.

(** X18: after any history of operations on a bank, the account at
    position [i] of the shared account list has the customer id [i], and
    the log holds exactly one [OpenAccount] transaction per account, with
    the customer ids 0, 1, 2, ... in this order: the ids handed out by
    [open_account] are distinct across all branches. *)
Theorem X18_customer_ids_are_positions (ops : list bank_op) :
  BankAccount._customer_id <$> accounts_of (bank_run ops)
  = Z.of_nat <$> seq 0 (length (accounts_of (bank_run ops)))
  ∧ opened_ids (log_of (bank_run ops))
    = Z.of_nat <$> seq 0 (length (accounts_of (bank_run ops))).
Proof.
  apply bank_run_ind; [by split|].
  intros bank o [Hids Hlog].
  destruct (bank_step_cases bank o)
    as [->|[(address & funds & _ & ->)
       |[(b & teller & branch & _ & _ & ->)
       |[(b & rnd & name & tid & _ & ->)
       |[(b & rnd & cid & amount & n & acc & tid & _ & _ & Hacc & ->)
       |(b & rnd & cid & amount & n & acc & tid & branch & _ & _ & _ & Hacc
         & _ & _ & ->)]]]]];
    unfold accounts_of, log_of in *; cbn [Bank._account_manager
      Bank._transaction_manager AccountManager._accounts
      TransactionManager._transactions].
  - by split.
  - by split.
  - by split.
  - rewrite length_app, Nat.add_1_r, seq_S, !fmap_app, opened_ids_snoc.
    rewrite Hids, Hlog. by split.
  - rewrite length_insert, opened_ids_snoc, app_nil_r.
    rewrite customer_ids_insert by done. by split.
  - rewrite length_insert, opened_ids_snoc, app_nil_r.
    rewrite customer_ids_insert by done. by split.
Qed.

(** ** The ledger *)

Lemma Zsum_snoc (l : list Z) (x : Z) : Zsum (l ++ [x]) = Zsum l + x.
Proof.
  induction l as [|y l IH]; [unfold Zsum; simpl; lia|].
  change (Zsum ((y :: l) ++ [x])) with (y + Zsum (l ++ [x])).
  change (Zsum (y :: l)) with (y + Zsum l). lia.
Qed.

Lemma ledger_balance_snoc (log : list Transaction) (t : Transaction) (i : Z) :
  ledger_balance (log ++ [t]) i = ledger_balance log i + ledger_delta i t.
Proof.
  unfold ledger_balance. rewrite fmap_app.
  change (ledger_delta i <$> [t]) with [ledger_delta i t]. apply Zsum_snoc.
Qed.

Lemma ledger_balance_unknown (log : list Transaction) (i : Z) :
  (∀ t, t ∈ log → get_customer_id t ≠ i) → ledger_balance log i = 0.
Proof.
  induction log as [|t log IH] using rev_ind; intros H; [reflexivity|].
  rewrite ledger_balance_snoc, IH.
  - assert (Ht : get_customer_id t ≠ i)
      by (apply H, elem_of_app; right; left).
    destruct t; simpl in *; try case_decide; done.
  - intros t' Ht'. apply H, elem_of_app. by left.
Qed.

Lemma ledger_ok_step (bank : Bank.t) (o : bank_op) :
  plain_customer_id o → ledger_ok bank → ledger_ok (bank_step bank o).
Proof.
  intros Hplain [Hrange Hbal].
  destruct (bank_step_cases bank o)
    as [->|[(address & funds & _ & ->)
       |[(b & teller & branch & _ & _ & ->)
       |[(b & rnd & name & tid & _ & ->)
       |[(b & rnd & cid & amount & n & acc & tid & -> & Hn & Hacc & ->)
       |(b & rnd & cid & amount & n & acc & tid & branch & -> & _ & Hn & Hacc
         & _ & _ & ->)]]]]];
    try (by split).
  - unfold ledger_ok, accounts_of, log_of in *;
      cbn [Bank._account_manager Bank._transaction_manager
           AccountManager._accounts TransactionManager._transactions] in *.
    split.
    + intros t Ht. rewrite length_app. simpl length.
      apply elem_of_app in Ht as [Ht|Ht].
      * specialize (Hrange t Ht). lia.
      * apply list_elem_of_singleton in Ht as ->. simpl. lia.
    + intros i acc Hi. rewrite ledger_balance_snoc. simpl ledger_delta.
      rewrite Z.add_0_r. apply lookup_snoc_Some in Hi as [[_ Hi]|[-> <-]].
      * by apply Hbal.
      * simpl. symmetry. apply ledger_balance_unknown.
        intros t Ht. specialize (Hrange t Ht). lia.
  - simpl in Hplain. pose proof (py_index_lt _ _ _ Hn) as Hlt.
    apply py_index_nonneg in Hn as ->; [|done].
    unfold ledger_ok, accounts_of, log_of in *;
      cbn [Bank._account_manager Bank._transaction_manager
           AccountManager._accounts TransactionManager._transactions] in *.
    split.
    + intros t Ht. rewrite length_insert.
      apply elem_of_app in Ht as [Ht|Ht]; [by apply Hrange|].
      apply list_elem_of_singleton in Ht as ->. simpl. lia.
    + intros i acc' Hi. rewrite ledger_balance_snoc. simpl ledger_delta.
      rewrite list_lookup_insert in Hi.
      destruct (decide (n = i ∧ (n < length _)%nat)) as [[-> _]|Hne].
      * injection Hi as <-. simpl. rewrite decide_True by done.
        rewrite (Hbal i acc Hacc). lia.
      * rewrite decide_False by lia. rewrite Z.add_0_r. by apply Hbal.
  - simpl in Hplain. pose proof (py_index_lt _ _ _ Hn) as Hlt.
    apply py_index_nonneg in Hn as ->; [|done].
    unfold ledger_ok, accounts_of, log_of in *;
      cbn [Bank._account_manager Bank._transaction_manager
           AccountManager._accounts TransactionManager._transactions] in *.
    split.
    + intros t Ht. rewrite length_insert.
      apply elem_of_app in Ht as [Ht|Ht]; [by apply Hrange|].
      apply list_elem_of_singleton in Ht as ->. simpl. lia.
    + intros i acc' Hi. rewrite ledger_balance_snoc. simpl ledger_delta.
      rewrite list_lookup_insert in Hi.
      destruct (decide (n = i ∧ (n < length _)%nat)) as [[-> _]|Hne].
      * injection Hi as <-. simpl. rewrite decide_True by done.
        rewrite (Hbal i acc Hacc). lia.
      * rewrite decide_False by lia. rewrite Z.add_0_r. by apply Hbal.
Qed.

(** X19: after a history in which every deposit and withdrawal was called
    with a customer id that is not negative, the balance of every account
    is what the log records for it: the sum of the amounts of the logged
    deposits to its customer id minus the sum of the amounts of the logged
    withdrawals from it. *)
Theorem X19_balances_match_log (ops : list bank_op) (i : nat)
    (acc : BankAccount.t) :
  Forall plain_customer_id ops →
  accounts_of (bank_run ops) !! i = Some acc →
  BankAccount._balance acc
  = ledger_balance (log_of (bank_run ops)) (Z.of_nat i).
Proof.
  intros Hplain. revert i acc.
  assert (Hok : ledger_ok (bank_run ops)); [|apply Hok].
  induction ops as [|o ops IH] using rev_ind.
  - split; [intros t Ht; by apply elem_of_nil in Ht|].
    intros i acc Hi. by destruct i.
  - rewrite Forall_app, Forall_singleton in Hplain.
    destruct Hplain as [Hops Ho].
    rewrite bank_run_snoc. apply ledger_ok_step; [exact Ho | by apply IH].
Qed.

Lemma X19_balances_match_log_witness :
  BankAccount._balance (BankAccount.mk 0 "John Doe" 50)
  = ledger_balance (log_of (bank_run (usage 0 1 0 1 0 1 0))) (Z.of_nat 0).
Proof.
  apply (X19_balances_match_log (usage 0 1 0 1 0 1 0) 0
           (BankAccount.mk 0 "John Doe" 50)).
  - unfold usage.
    repeat (apply Forall_cons; split; [simpl; lia|]). apply Forall_nil_2.
  - vm_compute. reflexivity.
Defined.

(** With a negative customer id the log and the balances part: the deposit
    is logged for the id [-1] and credited to the account [0]. *)
Example negative_id_not_in_ledger :
  accounts_of (bank_run [AddBranch "123 Main St" 1000; AddTeller 0 1;
                         Open 0 0 "John Doe"; Dep 0 0 (-1) 100])
  = [BankAccount.mk 0 "John Doe" 100]
  ∧ ledger_balance
      (log_of (bank_run [AddBranch "123 Main St" 1000; AddTeller 0 1;
                         Open 0 0 "John Doe"; Dep 0 0 (-1) 100])) 0
    = 0.
Proof. split; vm_compute; reflexivity. Qed.

(** ** What operations never undo *)

Lemma bank_step_grows (bank : Bank.t) (o : bank_op) :
  log_of bank `prefix_of` log_of (bank_step bank o)
  ∧ (BankAccount._name <$> accounts_of bank)
    `prefix_of` (BankAccount._name <$> accounts_of (bank_step bank o))
  ∧ (length (Bank._branches bank)
     <= length (Bank._branches (bank_step bank o)))%nat.
Proof.
  destruct (bank_step_cases bank o)
    as [->|[(address & funds & _ & ->)
       |[(b & teller & branch & _ & _ & ->)
       |[(b & rnd & name & tid & _ & ->)
       |[(b & rnd & cid & amount & n & acc & tid & _ & _ & Hacc & ->)
       |(b & rnd & cid & amount & n & acc & tid & branch & _ & _ & _ & Hacc
         & _ & _ & ->)]]]]];
    unfold accounts_of, log_of in *;
    cbn [Bank._account_manager Bank._transaction_manager Bank._branches
         AccountManager._accounts TransactionManager._transactions].
  - done.
  - split; [done|]. split; [done|]. rewrite length_app. lia.
  - split; [done|]. split; [done|]. by rewrite length_insert.
  - split; [by apply prefix_app_r|]. split; [|done].
    rewrite fmap_app. by apply prefix_app_r.
  - split; [by apply prefix_app_r|]. split; [|done].
    by rewrite names_insert.
  - split; [by apply prefix_app_r|]. split; [|by rewrite length_insert].
    by rewrite names_insert.
Qed.

(** X20: operations on a bank never undo a record: after any further
    operations the log still starts with the log as it was (transactions are
    only appended), the accounts that existed still exist at their
    positions under their names, and no branch has disappeared. *)
Theorem X20_log_and_accounts_only_grow (ops more : list bank_op) :
  log_of (bank_run ops) `prefix_of` log_of (bank_run (ops ++ more))
  ∧ (BankAccount._name <$> accounts_of (bank_run ops))
    `prefix_of` (BankAccount._name <$> accounts_of (bank_run (ops ++ more)))
  ∧ (length (Bank._branches (bank_run ops))
     <= length (Bank._branches (bank_run (ops ++ more))))%nat.
Proof.
  induction more as [|o more IH] using rev_ind.
  - rewrite app_nil_r. done.
  - rewrite app_assoc, bank_run_snoc.
    destruct IH as (IH1 & IH2 & IH3).
    destruct (bank_step_grows (bank_run (ops ++ more)) o) as (G1 & G2 & G3).
    split; [by etrans|]. split; [by etrans|]. lia.
Qed.

(** X21: an operation changes the fields of a branch only if it adds a
    teller to that branch or withdraws at it: every other operation,
    whether it returns or raises, and in particular every deposit and every
    operation on another branch, leaves the branch as it was. *)
Theorem X21_other_branches_untouched (bank : Bank.t) (o : bank_op) (b : nat)
    (branch : BankBranch.t) :
  Bank._branches bank !! b = Some branch →
  ¬ touches_branch o b →
  Bank._branches (bank_step bank o) !! b = Some branch.
Proof.
  intros Hb Hno.
  destruct (bank_step_cases bank o)
    as [->|[(address & funds & _ & ->)
       |[(b' & teller & branch' & -> & _ & ->)
       |[(b' & rnd & name & tid & _ & ->)
       |[(b' & rnd & cid & amount & n & acc & tid & _ & _ & _ & ->)
       |(b' & rnd & cid & amount & n & acc & tid & branch' & -> & _ & _ & _
         & _ & _ & ->)]]]]];
    cbn [Bank._branches]; try done.
  - rewrite lookup_app_l; [done|]. by eapply lookup_lt_Some.
  - simpl in Hno. by rewrite list_lookup_insert_ne.
  - simpl in Hno. by rewrite list_lookup_insert_ne.
Qed.

Lemma X21_other_branches_untouched_witness :
  Bank._branches
    (bank_step
       (bank_run [AddBranch "123 Main St" 1000; AddBranch "456 Elm St" 1000;
                  AddTeller 0 1; Open 0 0 "John Doe"; Dep 0 0 0 100])
       (Wd 0 0 0 50)) !! 1%nat
  = Some (BankBranch.mk "456 Elm St" 1000 []).
Proof.
  apply (X21_other_branches_untouched
           (bank_run [AddBranch "123 Main St" 1000;
                      AddBranch "456 Elm St" 1000;
                      AddTeller 0 1; Open 0 0 "John Doe"; Dep 0 0 0 100])
           (Wd 0 0 0 50) 1 (BankBranch.mk "456 Elm St" 1000 [])).
  - vm_compute. reflexivity.
  - simpl. lia.
Defined.

(** ** Solvency *)

Lemma solvent_step (bank : Bank.t) (o : bank_op) :
  nonneg_op o → solvent bank → solvent (bank_step bank o).
Proof.
  intros Hop [Hcash Hbal].
  destruct (bank_step_cases bank o)
    as [->|[(address & funds & -> & ->)
       |[(b & teller & branch & -> & Hb & ->)
       |[(b & rnd & name & tid & -> & ->)
       |[(b & rnd & cid & amount & n & acc & tid & -> & _ & Hacc & ->)
       |(b & rnd & cid & amount & n & acc & tid & branch & -> & Hb & _ & Hacc
         & Hle1 & Hle2 & ->)]]]]];
    [by split|..];
    unfold solvent, accounts_of in *;
    cbn [Bank._account_manager Bank._branches AccountManager._accounts] in *;
    simpl in Hop.
  - split; [|exact Hbal]. intros b branch Hb.
    apply lookup_snoc_Some in Hb as [[_ Hb]|[_ <-]]; [by eapply Hcash|done].
  - split; [|exact Hbal]. intros b' branch' Hb'.
    rewrite list_lookup_insert in Hb'.
    destruct (decide (b = b' ∧ (b < length _)%nat)); [|by eapply Hcash].
    injection Hb' as <-. simpl. by eapply Hcash.
  - split; [exact Hcash|]. intros i acc Hi.
    apply lookup_snoc_Some in Hi as [[_ Hi]|[_ <-]]; [by eapply Hbal|done].
  - split; [exact Hcash|]. intros i acc' Hi.
    rewrite list_lookup_insert in Hi.
    destruct (decide (n = i ∧ (n < length _)%nat)); [|by eapply Hbal].
    injection Hi as <-. simpl. specialize (Hbal n acc Hacc). lia.
  - split.
    + intros b' branch' Hb'. rewrite list_lookup_insert in Hb'.
      destruct (decide (b = b' ∧ (b < length _)%nat)); [|by eapply Hcash].
      injection Hb' as <-. simpl. lia.
    + intros i acc' Hi. rewrite list_lookup_insert in Hi.
      destruct (decide (n = i ∧ (n < length _)%nat)); [|by eapply Hbal].
      injection Hi as <-. simpl. lia.
Qed.

(** X22: after a history in which every branch was added with funds that
    are not negative and every deposit was of an amount that is not
    negative, no branch has negative cash on hand and no account has a
    negative balance, whatever was withdrawn: the two guards of [withdraw]
    refuse what would overdraw. *)
Theorem X22_no_overdraft (ops : list bank_op) :
  Forall nonneg_op ops →
  (∀ b branch, Bank._branches (bank_run ops) !! b = Some branch →
               0 <= BankBranch._cash_on_hand branch)
  ∧ (∀ i acc, accounts_of (bank_run ops) !! i = Some acc →
              0 <= BankAccount._balance acc).
Proof.
  intros Hops. change (solvent (bank_run ops)).
  induction ops as [|o ops IH] using rev_ind.
  - split; intros i x Hi; by destruct i.
  - rewrite Forall_app, Forall_singleton in Hops. destruct Hops as [Hops Ho].
    rewrite bank_run_snoc. apply solvent_step; [exact Ho | by apply IH].
Qed.

Lemma X22_no_overdraft_witness :
  (∀ b branch,
     Bank._branches (bank_run (usage 0 1 0 1 0 1 0)) !! b = Some branch →
     0 <= BankBranch._cash_on_hand branch)
  ∧ (∀ i acc, accounts_of (bank_run (usage 0 1 0 1 0 1 0)) !! i = Some acc →
              0 <= BankAccount._balance acc).
Proof.
  apply (X22_no_overdraft (usage 0 1 0 1 0 1 0)).
  unfold usage.
  repeat (apply Forall_cons; split; [simpl; lia|]). apply Forall_nil_2.
Defined.

(** A deposit of a negative amount is accepted and can overdraw. *)
Example negative_deposit_overdraws :
  accounts_of (bank_run [AddBranch "123 Main St" 1000; AddTeller 0 1;
                         Open 0 0 "John Doe"; Dep 0 0 0 (-70)])
  = [BankAccount.mk 0 "John Doe" (-70)].
Proof. vm_compute. reflexivity. Qed.

(** The usage of the source, for one choice of the draws. *)
Example usage_final_state :
  BankAccount._balance <$> accounts_of (bank_run (usage 0 1 0 1 0 1 0))
  = [50; 200; 300]
  ∧ BankBranch._cash_on_hand <$> Bank._branches (bank_run (usage 0 1 0 1 0 1 0))
    = [950; 1000]
  ∧ log_of (bank_run (usage 0 1 0 1 0 1 0))
    = [OpenAccount 0 1; OpenAccount 1 2; OpenAccount 2 3;
       Deposit 0 2 100; Deposit 1 1 200; Deposit 2 4 300;
       Withdrawal 0 1 50].
Proof. repeat split; vm_compute; reflexivity. Qed.
